(** * Legal risk analysis backend: todo tracker, approval gate, workspace
      and delegation tools

    A shallow embedding of
      - [app/agents/base_agent.py]   (TodoListMiddleware, FilesystemMiddleware),
      - [app/api/approval_system.py] (HumanApprovalSystem and its helpers),
      - [app/agents/legal_agents.py] (the two delegation tools),
    followed by the properties of these functions.

    Python [str] values are Rocq strings holding the UTF-8 bytes of the
    text; Python [int] is [Z]; [None] is [None]. *)

From Stdlib Require Import ZArith String Ascii List DecimalString Lia.
From stdpp Require Import gmap strings list sorting.

Open Scope string_scope.
Open Scope list_scope.

(** ** Pieces of the Python runtime the source relies on *)

Module Py.

(** The line feed written ["\n"] in the source. *)
Definition LF : string := String (ascii_of_nat 10) EmptyString.

(** [str(n)] for a natural number, as an f-string renders it. *)
Definition str_nat (n : nat) : string := NilZero.string_of_uint (Nat.to_uint n).

(** [enumerate(l)] *)
Definition enumerate {A} (l : list A) : list (nat * A) := imap pair l.

(** [needle in hay] on strings. *)
Fixpoint contains (needle hay : string) : bool :=
  String.prefix needle hay
  || match hay with
     | EmptyString => false
     | String _ rest => contains needle rest
     end.

(** [s.split(sep)] for a one-character separator: never the empty list. *)
Fixpoint split (sep : ascii) (s : string) : list string :=
  match s with
  | EmptyString => [EmptyString]
  | String c rest =>
      if Ascii.eqb c sep then EmptyString :: split sep rest
      else match split sep rest with
           | [] => [String c EmptyString]
           | w :: ws => String c w :: ws
           end
  end.

(** [sep.join(l)] *)
Fixpoint join (sep : string) (l : list string) : string :=
  match l with
  | [] => EmptyString
  | [w] => w
  | w :: ws => w +:+ sep +:+ join sep ws
  end.

(** A [dict] keeps its keys in insertion order, each key once.  It is a
    list of bindings, oldest first. *)
Section Dict.
Context {V : Type}.

(** [d.get(k)] *)
Fixpoint dict_get (k : string) (d : list (string * V)) : option V :=
  match d with
  | [] => None
  | (k', v) :: rest => if decide (k = k') then Some v else dict_get k rest
  end.

(** [d[k] = v]: an existing key keeps its place, a new key goes last. *)
Fixpoint dict_set (k : string) (v : V) (d : list (string * V)) : list (string * V) :=
  match d with
  | [] => [(k, v)]
  | (k', v') :: rest =>
      if decide (k = k') then (k, v) :: rest else (k', v') :: dict_set k v rest
  end.

(** [del d[k]] (only used on a key that is present). *)
Definition dict_del (k : string) (d : list (string * V)) : list (string * V) :=
  filter (fun kv => kv.1 ≠ k) d.

(** [d.values()] *)
Definition dict_values (d : list (string * V)) : list V := d.*2.

(** [d.keys()] *)
Definition dict_keys (d : list (string * V)) : list string := d.*1.
End Dict.

End Py.

(** ** TodoListMiddleware (base_agent.py) *)

Module TodoListMiddleware.
Import Py.

(** One entry of [self.todos]: the dict [{"task": ..., "status": ...}]. *)
Record TodoItem := { task : string; status : string }.

Record t := { todos : list TodoItem }.

Definition init : t := {| todos := [] |}.

Definition add_todo (self : t) (task : string) (status : string) : t :=
  {| todos := todos self ++ [ {| task := task; status := status |} ] |}.

Definition set_status (status : string) (todo : TodoItem) : TodoItem :=
  {| task := task todo; status := status |}.

Definition update_todo (self : t) (index : Z) (status : string) : t :=
  if ((0 <=? index) && (index <? Z.of_nat (length (todos self))))%Z
  then {| todos := alter (set_status status) (Z.to_nat index) (todos self) |}
  else self.

Definition get_todos (self : t) : list TodoItem := todos self.

Definition status_icon (todo : TodoItem) : string :=
  if decide (status todo = "completed") then "✓" else "○".

Definition format_line (formatted : string) (it : nat * TodoItem) : string :=
  let '(i, todo) := it in
  formatted +:+ str_nat (i + 1) +:+ ". [" +:+ status_icon todo +:+ "] "
            +:+ task todo +:+ " (" +:+ status todo +:+ ")" +:+ LF.

Definition format_todos (self : t) : string :=
  match todos self with
  | [] => "No todos yet."
  | _ => fold_left format_line (enumerate (todos self)) ("Current todos:" +:+ LF)
  end.

End TodoListMiddleware.

(** ** HumanApprovalSystem (approval_system.py) *)

Module Approval.
Import Py.

Inductive ApprovalType :=
| TODO | SUBAGENT_TASK | GET_DOCUMENTS | GET_PAGE_TEXT | GET_PAGE_IMAGE
| WRITE_FILE | EDIT_FILE | INTERNET_SEARCH | URL_CONTENT.

Inductive ApprovalStatus := PENDING | APPROVED | EDITED | REJECTED.

#[export] Instance ApprovalType_eq_dec : EqDecision ApprovalType.
Proof. solve_decision. Defined.

#[export] Instance ApprovalStatus_eq_dec : EqDecision ApprovalStatus.
Proof. solve_decision. Defined.

(** The values a payload ([Dict[str, Any]]) holds in this program. *)
#[local] Unset Elimination Schemes.
Inductive pyval :=
| VNone
| VStr (s : string)
| VList (l : list pyval)
| VDict (d : list (string * pyval)).
#[local] Set Elimination Schemes.

Definition Payload := list (string * pyval).

(** Truth value of an [Optional[Dict]]: [None] and the empty dict are
    false. *)
Definition truthy (d : option Payload) : bool :=
  match d with
  | None => false
  | Some [] => false
  | Some (_ :: _) => true
  end.

(** [datetime] values: seconds on the clock of the host. *)
Definition datetime := Z.

Record ApprovalRequest := {
  id : string;
  type : ApprovalType;
  timestamp : datetime;
  status : ApprovalStatus;
  data : Payload;
  agent_name : string;
  description : string;
  highlights : option Payload;
}.

Definition with_status (st : ApprovalStatus) (r : ApprovalRequest) : ApprovalRequest :=
  {| id := id r; type := type r; timestamp := timestamp r; status := st;
     data := data r; agent_name := agent_name r; description := description r;
     highlights := highlights r |}.

Definition with_data (d : Payload) (r : ApprovalRequest) : ApprovalRequest :=
  {| id := id r; type := type r; timestamp := timestamp r; status := status r;
     data := d; agent_name := agent_name r; description := description r;
     highlights := highlights r |}.

(** Requests are mutable objects that the pending dict, the history list
    and the callers share.  [heap] holds every request object created so
    far; a reference is the position of the object in it. *)
Abbreviation ref := nat (only parsing).

Record HumanApprovalSystem := {
  heap : list ApprovalRequest;
  pending_approvals : list (string * ref);
  approval_history : list ref;
}.

(** [HumanApprovalSystem()] *)
Definition init : HumanApprovalSystem :=
  {| heap := []; pending_approvals := []; approval_history := [] |}.

(** The object a reference points to. *)
Definition deref (self : HumanApprovalSystem) (r : ref) : option ApprovalRequest :=
  heap self !! r.

(** [uuid] is the value of [str(uuid.uuid4())] and [now] the value of
    [datetime.now()] at the call. *)
Definition create_approval_request (self : HumanApprovalSystem)
    (uuid : string) (now : datetime)
    (approval_type : ApprovalType) (data : Payload) (agent_name : string)
    (description : string) (highlights : option Payload)
  : ref * HumanApprovalSystem :=
  let request :=
    {| id := uuid; type := approval_type; timestamp := now; status := PENDING;
       data := data; agent_name := agent_name; description := description;
       highlights := highlights |} in
  let r := length (heap self) in
  (r, {| heap := heap self ++ [request];
         pending_approvals := dict_set uuid r (pending_approvals self);
         approval_history := approval_history self |}).

Definition get_pending_approvals (self : HumanApprovalSystem) : list ref :=
  dict_values (pending_approvals self).

Definition get_approval_request (self : HumanApprovalSystem) (request_id : string)
  : option ref :=
  dict_get request_id (pending_approvals self).

(** The assignments [respond_to_approval] makes to the request object:
    [request.status = status], then [request.data = modified_data] under
    the guard [status == ApprovalStatus.EDITED and modified_data]. *)
Definition assign_response (status : ApprovalStatus)
    (modified_data : option Payload) (request : ApprovalRequest) : ApprovalRequest :=
  let request := with_status status request in
  if bool_decide (status = EDITED) && truthy modified_data
  then match modified_data with
       | Some d => with_data d request
       | None => request
       end
  else request.

(** A request object is true as every object without [__bool__] and
    [__len__] is, so that [if not request] is taken exactly when [get]
    gave [None]. *)
Definition respond_to_approval (self : HumanApprovalSystem)
    (request_id : string) (status : ApprovalStatus)
    (modified_data : option Payload) (feedback : option string)
  : option ref * HumanApprovalSystem :=
  match dict_get request_id (pending_approvals self) with
  | None => (None, self)
  | Some request =>
      (Some request,
       {| heap := alter (assign_response status modified_data) request (heap self);
          pending_approvals := dict_del request_id (pending_approvals self);
          approval_history := approval_history self ++ [request] |})
  end.

Definition clear_pending_approvals (self : HumanApprovalSystem) : HumanApprovalSystem :=
  {| heap := heap self;
     pending_approvals := [];
     approval_history := approval_history self ++ dict_values (pending_approvals self) |}.

(** [l[-limit:]].  A negative start counts from the end and is clamped
    at the front; a start that is not negative ([limit <= 0]) counts from
    the front, so that [l[-0:]] is [l[0:]]. *)
Definition slice_from_neg {A} (limit : Z) (l : list A) : list A :=
  let start := (- limit)%Z in
  if (start <? 0)%Z
  then drop (Z.to_nat (Z.max 0 (Z.of_nat (length l) + start))) l
  else drop (Z.to_nat start) l.

Definition get_approval_history (self : HumanApprovalSystem) (limit : Z) : list ref :=
  slice_from_neg limit (approval_history self).

(** The default [limit: int = 50]. *)
Definition default_limit : Z := 50.

Definition file_operation_description (operation : ApprovalType) (file_path : string)
  : string :=
  match operation with
  | WRITE_FILE => "wants to write file: " +:+ file_path
  | EDIT_FILE => "wants to edit file: " +:+ file_path
  | _ => "wants to perform file operation"
  end.

Definition opt_str (o : option string) : pyval :=
  match o with Some s => VStr s | None => VNone end.

Definition create_file_operation_approval (self : HumanApprovalSystem)
    (uuid : string) (now : datetime)
    (operation : ApprovalType) (file_path : string) (content : option string)
    (agent_name : string) : ref * HumanApprovalSystem :=
  create_approval_request self uuid now operation
    [("file_path", VStr file_path); ("content", opt_str content)]
    agent_name
    (agent_name +:+ " " +:+ file_operation_description operation file_path)
    (Some [("file", VStr file_path)]).

(** The three state-changing methods, as one type of calls. *)
Inductive call :=
| Create (uuid : string) (now : datetime) (approval_type : ApprovalType)
         (data : Payload) (agent_name description : string)
         (highlights : option Payload)
| Respond (request_id : string) (status : ApprovalStatus)
          (modified_data : option Payload) (feedback : option string)
| Clear.

Definition step (self : HumanApprovalSystem) (c : call) : HumanApprovalSystem :=
  match c with
  | Create uuid now ty d a descr h =>
      (create_approval_request self uuid now ty d a descr h).2
  | Respond i st md fb => (respond_to_approval self i st md fb).2
  | Clear => clear_pending_approvals self
  end.

Definition run (self : HumanApprovalSystem) (cs : list call) : HumanApprovalSystem :=
  fold_left step cs self.

(** Whether a call submits a request under the identifier [i]. *)
Definition creates (i : string) (c : call) : Prop :=
  match c with
  | Create uuid _ _ _ _ _ _ => uuid = i
  | _ => False
  end.

(** States of one session: what a sequence of calls makes of the fresh
    system. *)
Definition reachable (self : HumanApprovalSystem) : Prop :=
  exists cs, self = run init cs.

(** The shape every reachable state has: the pending dict has one
    binding per key and per object, each pending object exists, carries
    its key as [id] and is still PENDING, and no object of the history is
    pending. *)
Record wf (self : HumanApprovalSystem) : Prop := {
  wf_keys : NoDup (dict_keys (pending_approvals self));
  wf_refs : NoDup (dict_values (pending_approvals self));
  wf_pending :
    forall k r, (k, r) ∈ pending_approvals self ->
      exists q, heap self !! r = Some q /\ id q = k /\ status q = PENDING;
  wf_history_valid :
    forall r, r ∈ approval_history self -> r < length (heap self);
  wf_history_resolved :
    forall r, r ∈ approval_history self ->
      r ∉ dict_values (pending_approvals self);
}.

End Approval.

(** ** The file system of the host, as [open] and [os.makedirs] see it

  A tree of directories and text files without links, permissions or
  open-file limits.  A node is addressed by the names on the way from the
  root; the process has a working directory. *)

Module OS.
Import Py.

Abbreviation path := (list string) (only parsing).

Inductive node := Dir | File (content : string).

Record filesystem := { cwd : path; tree : gmap (list string) node }.

Inductive OSError :=
| FileNotFoundError (filename : string)
| FileExistsError (filename : string)
| NotADirectoryError (filename : string)
| IsADirectoryError (filename : string).

Inductive result (A : Type) :=
| Ok (a : A)
| Raise (e : OSError).
Arguments Ok {A} a.
Arguments Raise {A} e.

(** [repr] of a file name made of printable characters other than the
    quote and the backslash. *)
Definition repr (s : string) : string := "'" +:+ s +:+ "'".

(** [str(e)] *)
Definition str (e : OSError) : string :=
  match e with
  | FileNotFoundError f => "[Errno 2] No such file or directory: " +:+ repr f
  | FileExistsError f => "[Errno 17] File exists: " +:+ repr f
  | NotADirectoryError f => "[Errno 20] Not a directory: " +:+ repr f
  | IsADirectoryError f => "[Errno 21] Is a directory: " +:+ repr f
  end.

Definition slash : ascii := "/"%char.

(** The components of a path name. *)
Definition components (p : string) : list string := split slash p.

(** Where the resolution of [p] starts: at the root for an absolute
    name, at the working directory otherwise. *)
Definition start (fs : filesystem) (p : string) : path :=
  if String.prefix "/" p then [] else cwd fs.

(** The same, read off the components: an absolute name starts with an
    empty component and has another one. *)
Definition start_at (fs : filesystem) (segs : list string) : path :=
  match segs with
  | "" :: _ :: _ => []
  | _ => cwd fs
  end.

(** The components that are not empty. *)
Definition names (segs : list string) : list string :=
  filter (fun s => s <> "") segs.

Definition parent (p : path) : path := removelast p.

Inductive errno := ENOENT | ENOTDIR.

(** Resolution of the components [segs] from the directory [cur].  Each
    component is looked up in a node that has to be a directory; the
    empty component and "." stay, ".." goes to the parent.  The node
    named by the last component need not exist. *)
Fixpoint walk (t : gmap (list string) node) (cur : path) (segs : list string)
  : errno + path :=
  match segs with
  | [] => inr cur
  | seg :: rest =>
      match t !! cur with
      | None => inl ENOENT
      | Some (File _) => inl ENOTDIR
      | Some Dir =>
          if decide (seg = "" \/ seg = ".") then walk t cur rest
          else if decide (seg = "..") then walk t (parent cur) rest
          else walk t (cur ++ [seg]) rest
      end
  end.

Definition resolve (fs : filesystem) (p : string) : errno + path :=
  walk (tree fs) (start fs p) (components p).

Definition raise_errno {A} (e : errno) (p : string) : result A :=
  match e with
  | ENOENT => Raise (FileNotFoundError p)
  | ENOTDIR => Raise (NotADirectoryError p)
  end.

(** [with open(p, "r") as f: return f.read()] *)
Definition read_text (fs : filesystem) (p : string) : result string :=
  match resolve fs p with
  | inl e => raise_errno e p
  | inr q =>
      match tree fs !! q with
      | None => Raise (FileNotFoundError p)
      | Some Dir => Raise (IsADirectoryError p)
      | Some (File content) => Ok content
      end
  end.

(** [with open(p, "w") as f: f.write(content)] *)
Definition write_text (fs : filesystem) (p : string) (content : string)
  : result filesystem :=
  match resolve fs p with
  | inl e => raise_errno e p
  | inr q =>
      match tree fs !! q with
      | Some Dir => Raise (IsADirectoryError p)
      | _ => Ok {| cwd := cwd fs; tree := <[q := File content]> (tree fs) |}
      end
  end.

(** Trailing empty components, that is trailing slashes, removed. *)
Fixpoint rstrip_empty (l : list string) : list string :=
  match l with
  | [] => []
  | s :: rest =>
      match rstrip_empty rest with
      | [] => if decide (s = "") then [] else [s]
      | rest' => s :: rest'
      end
  end.

(** [os.path.dirname(p)]: what precedes the last slash, without its
    trailing slashes unless it consists of slashes only. *)
Definition dirname (p : string) : string :=
  let head := removelast (components p) in
  if forallb (fun s => bool_decide (s = "")) head
  then join "/" (head ++ [""])
  else join "/" (rstrip_empty head).

(** [os.makedirs(name, exist_ok=True)] along the components [segs] of
    [name], [seen] being those already passed: a missing directory is
    created, an existing one entered, and a file in the way raises.  The
    first component is the tree as the call leaves it, also when it
    raises. *)
Fixpoint mkdirs (name : string) (t : gmap (list string) node) (cur : path)
    (seen segs : list string) : gmap (list string) node * result path :=
  match segs with
  | [] =>
      match t !! cur with
      | Some (File _) => (t, Raise (FileExistsError name))
      | _ => (t, Ok cur)
      end
  | seg :: rest =>
      let here := join "/" (seen ++ [seg]) in
      if decide (seg = "") then mkdirs name t cur (seen ++ [seg]) rest
      else
        match t !! cur with
        | None => (t, Raise (FileNotFoundError here))
        | Some (File _) => (t, Raise (NotADirectoryError here))
        | Some Dir =>
            if decide (seg = ".") then mkdirs name t cur (seen ++ [seg]) rest
            else if decide (seg = "..")
            then mkdirs name t (parent cur) (seen ++ [seg]) rest
            else
              let q := cur ++ [seg] in
              match t !! q with
              | None => mkdirs name (<[q := Dir]> t) q (seen ++ [seg]) rest
              | Some _ => mkdirs name t q (seen ++ [seg]) rest
              end
        end
  end.

Definition makedirs (fs : filesystem) (name : string) : filesystem * result path :=
  if decide (name = "") then (fs, Raise (FileNotFoundError name))
  else
    let '(t, r) := mkdirs name (tree fs) (start fs name) [] (components name) in
    ({| cwd := cwd fs; tree := t |}, r).

End OS.

(** ** FilesystemMiddleware (base_agent.py) *)

Module FilesystemMiddleware.
Import Py OS.

Record t := { base_path : string }.

(** The default [base_path: str = "./data/agent_workspace"]. *)
Definition default_base_path : string := "./data/agent_workspace".

(** [__init__]: the workspace directory is created if missing. *)
Definition init (fs : filesystem) (base_path : string) : filesystem * result t :=
  match makedirs fs base_path with
  | (fs1, Ok _) => (fs1, Ok {| base_path := base_path |})
  | (fs1, Raise e) => (fs1, Raise e)
  end.

(** [f"{self.base_path}/{file_path}"] *)
Definition full_path (self : t) (file_path : string) : string :=
  base_path self +:+ "/" +:+ file_path.

Definition read_file (self : t) (fs : filesystem) (file_path : string) : string :=
  match read_text fs (full_path self file_path) with
  | Ok content => content
  | Raise e => "Error reading file: " +:+ str e
  end.

Definition write_file (self : t) (fs : filesystem) (file_path content : string)
  : string * filesystem :=
  let full := full_path self file_path in
  match makedirs fs (dirname full) with
  | (fs1, Raise e) => ("Error writing file: " +:+ str e, fs1)
  | (fs1, Ok _) =>
      match write_text fs1 full content with
      | Raise e => ("Error writing file: " +:+ str e, fs1)
      | Ok fs2 => ("File written successfully: " +:+ file_path, fs2)
      end
  end.

(** The directory the workspace lives in: what [base_path] resolves
    to. *)
Definition workspace_root (self : t) (fs : filesystem) (root : path) : Prop :=
  base_path self <> ""
  /\ resolve fs (base_path self) = inr root
  /\ tree fs !! root = Some Dir.

(** A node lies inside the workspace when its path goes through the
    root. *)
Definition inside (root q : path) : Prop := root `prefix_of` q.

End FilesystemMiddleware.

(** ** The delegation tools of LegalRiskAnalysisAgent (legal_agents.py) *)

Module LegalAgents.
Import Py.

(** [self.analysis_subagent] and [self.create_report_subagent]. *)
Inductive subagent := Analysis | CreateReport.

#[export] Instance subagent_eq_dec : EqDecision subagent.
Proof. solve_decision. Defined.

(** The class docstring: "Subagents: Analysis (unlimited), Create Report
    (use=1)".  No attribute or argument of the classes holds these
    numbers. *)
Definition documented_use (a : subagent) : option nat :=
  match a with
  | Analysis => None
  | CreateReport => Some 1
  end.

(** One entry into [BaseDeepAgent.run], hence into the loop of the
    agent executor. *)
Record entry := { who : subagent; input_text : string }.

Section Delegation.
(** What the executor of a subordinate answers: the value under
    "output" of the dict [ainvoke] returns, if there is one.  It may
    depend on the runs made before. *)
Variable ainvoke : subagent -> string -> list entry -> option string.

(** [BaseDeepAgent.run]; [log] lists the entries into the loops so
    far, oldest first. *)
Definition run (a : subagent) (input_text : string) (log : list entry)
  : option string * list entry :=
  (ainvoke a input_text log, log ++ [ {| who := a; input_text := input_text |} ]).

Definition delegate_to_analysis (task : string) (log : list entry)
  : string * list entry :=
  let '(result, log1) := run Analysis task log in
  (default "Analysis completed" result, log1).

Definition delegate_to_create_report (analysis_summary : string) (log : list entry)
  : string * list entry :=
  let '(result, log1) :=
    run CreateReport
      ("Create a comprehensive legal risk analysis report based on:"
         +:+ LF +:+ LF +:+ analysis_summary) log in
  (default "Report created" result, log1).

(** A call of one of the two tools by the coordinator. *)
Inductive tool_call :=
| DelegateToAnalysis (task : string)
| DelegateToCreateReport (analysis_summary : string).

Definition target (c : tool_call) : subagent :=
  match c with
  | DelegateToAnalysis _ => Analysis
  | DelegateToCreateReport _ => CreateReport
  end.

Definition invoke (c : tool_call) (log : list entry) : string * list entry :=
  match c with
  | DelegateToAnalysis task => delegate_to_analysis task log
  | DelegateToCreateReport summary => delegate_to_create_report summary log
  end.

(** The tool calls of one session, in order: their results and the
    log they leave. *)
Fixpoint session (cs : list tool_call) (log : list entry)
  : list string * list entry :=
  match cs with
  | [] => ([], log)
  | c :: rest =>
      let '(out, log1) := invoke c log in
      let '(outs, log2) := session rest log1 in
      (out :: outs, log2)
  end.
End Delegation.

(** How often the loop of [a] was entered. *)
Definition entries (a : subagent) (log : list entry) : nat :=
  length (filter (fun e => who e = a) log).

(** How many of the calls delegate to [a]. *)
Definition delegations (a : subagent) (cs : list tool_call) : nat :=
  length (filter (fun c => target c = a) cs).

End LegalAgents.

(** ** The state the tools and the operator act on *)

Module Process.
Import Py Approval OS FilesystemMiddleware.

(** The module-level [approval_system] instance and the disk. *)
Record world := { approval_system : HumanApprovalSystem; disk : filesystem }.

Inductive event :=
| WriteFile (file_path content : string)
| ReadFile (file_path : string)
| CreateFileOperationApproval (uuid : string) (now : datetime)
    (operation : ApprovalType) (file_path : string) (content : option string)
    (agent_name : string)
| RespondToApproval (request_id : string) (status : ApprovalStatus)
    (modified_data : option Payload) (feedback : option string).

Inductive answer :=
| Text (s : string)
| Request (r : option ref).

(** One call, by the workspace [ws] for the file events. *)
Definition exec (ws : FilesystemMiddleware.t) (w : world) (e : event)
  : answer * world :=
  match e with
  | WriteFile file_path content =>
      let '(msg, fs) := write_file ws (disk w) file_path content in
      (Text msg, {| approval_system := approval_system w; disk := fs |})
  | ReadFile file_path => (Text (read_file ws (disk w) file_path), w)
  | CreateFileOperationApproval uuid now operation file_path content agent_name =>
      let '(r, a) :=
        create_file_operation_approval (approval_system w) uuid now operation
          file_path content agent_name in
      (Request (Some r), {| approval_system := a; disk := disk w |})
  | RespondToApproval request_id status modified_data feedback =>
      let '(r, a) :=
        respond_to_approval (approval_system w) request_id status modified_data
          feedback in
      (Request r, {| approval_system := a; disk := disk w |})
  end.

End Process.

(** ** Concrete sessions used as examples *)

Module Examples.
Import Py Approval OS FilesystemMiddleware.

(** A host with the directories /srv and /srv/data, a file
    /srv/data/secret.txt, and /srv as working directory. *)
Definition host : filesystem :=
  {| cwd := ["srv"];
     tree := <[ ["srv"; "data"; "secret.txt"] := File "top secret" ]>
               (<[ ["srv"; "data"] := Dir ]>
                  (<[ ["srv"] := Dir ]> {[ [] := Dir ]})) |}.

(** The workspace with the default base path, and the host once the
    workspace has been created. *)
Definition ws : FilesystemMiddleware.t := {| base_path := default_base_path |}.

Definition fresh : filesystem := (FilesystemMiddleware.init host default_base_path).1.

Definition ws_root : list string := ["srv"; "data"; "agent_workspace"].

(** The process at its start: no approval request yet, the workspace
    empty. *)
Definition fresh_world : Process.world :=
  {| Process.approval_system := Approval.init; Process.disk := fresh |}.

(** Scenario B: the agent asks to write "report.md". *)
Definition submit_report : call :=
  Create "req-1" 0%Z WRITE_FILE
    [("file_path", VStr "report.md"); ("content", VStr "# R")]
    "agent" "agent wants to write file: report.md"
    (Some [("file", VStr "report.md")]).

Definition one_pending : HumanApprovalSystem :=
  Approval.run Approval.init [submit_report].

Definition one_resolved : HumanApprovalSystem :=
  Approval.run Approval.init [submit_report; Respond "req-1" APPROVED None None].

End Examples.

(** ** Sessions of the approval system in which every identifier is new *)

Module Submissions.
Import Py Approval.

(** The identifiers the calls submit requests under, in order. *)
Fixpoint submitted (cs : list call) : list string :=
  match cs with
  | [] => []
  | Create uuid _ _ _ _ _ _ :: rest => uuid :: submitted rest
  | _ :: rest => submitted rest
  end.

(** The request object [create_approval_request] builds. *)
Definition new_request (uuid : string) (now : datetime)
    (approval_type : ApprovalType) (data : Payload) (agent_name : string)
    (description : string) (highlights : option Payload) : ApprovalRequest :=
  {| id := uuid; type := approval_type; timestamp := now; status := PENDING;
     data := data; agent_name := agent_name; description := description;
     highlights := highlights |}.

End Submissions.

(** ** Well-formed trees of the host *)

Module Host.
Import Py OS.

#[export] Instance node_eq_dec : EqDecision node.
Proof. solve_decision. Defined.

(** Every node but the root lies in a directory. *)
Definition tree_ok (t : gmap (list string) node) : Prop :=
  map_Forall (fun p _ => t !! parent p = Some Dir) t.

End Host.

(** ** URLContentTool (web_tools.py)

  [len] and slices of a Python [str] count code points, so the texts of
  this tool are lists of code points. *)

Module WebTools.
Import Py.

Abbreviation text := (list N) (only parsing).

(** A literal of the source made of ASCII characters. *)
Definition lit (s : string) : text := N_of_ascii <$> list_ascii_of_string s.

(** [sep.join(l)] on texts. *)
Fixpoint join_text (sep : text) (l : list text) : text :=
  match l with
  | [] => []
  | [w] => w
  | w :: ws => w ++ sep ++ join_text sep ws
  end.

(** What [WebBaseLoader([url]).load()] does: it returns the
    [page_content] of the documents it loaded, or raises an exception
    whose [str] is the given text. *)
Inductive loaded :=
| Documents (page_contents : list text)
| Raised (message : text).

Definition max_length : nat := Z.to_nat 10000.

Definition truncation_mark : text := lit (LF +:+ LF +:+ "[Content truncated...]").

Definition URLContentTool_arun (load : text -> loaded) (url : text) : text :=
  match load url with
  | Raised message => lit "Error fetching URL content: " ++ message
  | Documents [] => lit "No content found at URL: " ++ url
  | Documents documents =>
      let content := join_text (lit (LF +:+ LF)) documents in
      if decide (max_length < length content)
      then take max_length content ++ truncation_mark
      else content
  end.

End WebTools.

(** ** The document tools (document_tools.py) over the tables of
    models/document.py *)

Module DocumentTools.
Import Py.

(** [str(n)] for an [int]. *)
Definition str_int (n : Z) : string :=
  if (n <? 0)%Z then "-" +:+ str_nat (Z.to_nat (- n)) else str_nat (Z.to_nat n).

(** A row of the table "pages". *)
Record Page := {
  page_id : Z;
  document_id : Z;
  page_num : Z;
  page_summdesc : option string;
  page_text : option string;
  page_image_path : option string;
}.

(** A row of the table "documents". *)
Record Document := {
  doc_id : Z;
  filename : string;
  summdesc : option string;
}.

(** The two tables, rows in the order the queries return them. *)
Record database := { documents : list Document; pages : list Page }.

(** [doc.pages]: the relationship over the foreign key. *)
Definition pages_of (db : database) (doc : Document) : list Page :=
  filter (fun p => document_id p = doc_id doc) (pages db).

(** [sorted(l, key=lambda p: p.page_num)]: the stable sort, by insertion
    from the right. *)
Fixpoint insert_page (p : Page) (l : list Page) : list Page :=
  match l with
  | [] => [p]
  | p0 :: rest =>
      if (page_num p <=? page_num p0)%Z then p :: l else p0 :: insert_page p rest
  end.

Definition sorted_by_page_num (l : list Page) : list Page :=
  foldr insert_page [] l.

(** The entry of one page in the answer of [get_page_text]. *)
Record PageText := {
  pt_page_num : Z;
  pt_summdesc : option string;
  pt_page_text : option string;
}.

Definition page_text_of (p : Page) : PageText :=
  {| pt_page_num := page_num p; pt_summdesc := page_summdesc p;
     pt_page_text := page_text p |}.

(** [select(Page).where(Page.document_id == doc_id,
    Page.page_num.in_(page_nums))] *)
Definition select_pages (db : database) (doc : Z) (page_nums : list Z) : list Page :=
  filter (fun p => document_id p = doc /\ page_num p ∈ page_nums) (pages db).

(** The list [pages_text] that [GetPageTextTool._arun] builds. *)
Definition pages_text (db : database) (doc : Z) (page_nums : list Z) : list PageText :=
  page_text_of <$> sorted_by_page_num (select_pages db doc page_nums).

Section Dumps.
(** [json.dumps(_, indent=2)] on such a list. *)
Variable dumps : list PageText -> string.

Definition GetPageTextTool_arun (db : database) (doc : Z) (page_nums : list Z)
  : string :=
  match select_pages db doc page_nums with
  | [] => "No pages found for document " +:+ str_int doc
            +:+ " with the provided page numbers."
  | _ => dumps (pages_text db doc page_nums)
  end.
End Dumps.

End DocumentTools.

(** ** GetDocumentsTool (document_tools.py) *)

Module GetDocuments.
Import Py DocumentTools.

(** The entry of one page, and of one document, in the answer. *)
Record PageSummary := { ps_page_num : Z; ps_summdesc : option string }.

Record DocumentDetails := {
  dd_doc_id : Z;
  dd_filename : string;
  dd_document_summary : option string;
  dd_pages : list PageSummary;
}.

Definition page_summary_of (p : Page) : PageSummary :=
  {| ps_page_num := page_num p; ps_summdesc := page_summdesc p |}.

(** [select(Document).where(Document.id.in_(doc_ids))] *)
Definition select_documents (db : database) (doc_ids : list Z) : list Document :=
  filter (fun d => doc_id d ∈ doc_ids) (documents db).

Definition details_of (db : database) (doc : Document) : DocumentDetails :=
  {| dd_doc_id := doc_id doc;
     dd_filename := filename doc;
     dd_document_summary := summdesc doc;
     dd_pages := page_summary_of <$> sorted_by_page_num (pages_of db doc) |}.

(** The list [doc_details] that [GetDocumentsTool._arun] builds. *)
Definition doc_details (db : database) (doc_ids : list Z) : list DocumentDetails :=
  details_of db <$> select_documents db doc_ids.

Section Dumps.
(** [json.dumps(_, indent=2)] on such a list. *)
Variable dumps : list DocumentDetails -> string.

Definition GetDocumentsTool_arun (db : database) (doc_ids : list Z) : string :=
  match select_documents db doc_ids with
  | [] => "No documents found with the provided IDs."
  | _ => dumps (doc_details db doc_ids)
  end.
End Dumps.

End GetDocuments.

(** ** LegalRiskAnalysisAgent.analyze_company_documents (legal_agents.py) *)

Module Coordinator.
Import Py DocumentTools.

(** An [Optional[str]] inside an f-string. *)
Definition fmt_opt (o : option string) : string :=
  match o with
  | Some s => s
  | None => "None"
  end.

(** [f"- Document {doc.id}: {doc.filename}\n  Summary: {doc.summdesc}"] *)
Definition summary_line (doc : Document) : string :=
  "- Document " +:+ str_int (doc_id doc) +:+ ": " +:+ filename doc +:+ LF
    +:+ "  Summary: " +:+ fmt_opt (summdesc doc).

Definition request_head : string :=
  "Company Legal Documents Analysis Request" +:+ LF +:+ LF
    +:+ "Available documents:" +:+ LF.

Definition request_tail : string :=
  LF +:+ LF
    +:+ "Please perform a comprehensive legal risk analysis of all company legal documents:"
    +:+ LF +:+ LF
    +:+ "1. Analyze each document for:" +:+ LF
    +:+ "   - Legal risks and liabilities" +:+ LF
    +:+ "   - Compliance requirements" +:+ LF
    +:+ "   - Problematic clauses or terms" +:+ LF
    +:+ "   - Missing protections" +:+ LF +:+ LF
    +:+ "2. Research relevant regulations and legal requirements" +:+ LF +:+ LF
    +:+ "3. Create a comprehensive risk analysis report" +:+ LF +:+ LF
    +:+ "Begin the analysis process.".

Definition initial_message (docs : list Document) : string :=
  request_head +:+ join LF (summary_line <$> docs) +:+ request_tail.

Section Analysis.
(** The dict the agent executor returns, and the executor of the
    coordinator: its answer to an input, given the inputs of the runs
    before. *)
Variable result : Type.
Variable ainvoke : string -> list string -> result.

(** What [analyze_company_documents] returns: the error dict with its
    "status" and "message", or the result of the run. *)
Inductive analysis :=
| Failure (status message : string)
| Ran (r : result).

(** [log] lists the inputs the coordinator was run on so far. *)
Definition analyze_company_documents (db : database) (log : list string)
  : analysis * list string :=
  match documents db with
  | [] =>
      (Failure "error"
         "No documents found in database. Please upload documents first.",
       log)
  | docs =>
      let message := initial_message docs in
      (Ran (ainvoke message log), log ++ [message])
  end.
End Analysis.

End Coordinator.

(** * Properties *)

(** ** Strings *)

Section Strings.
Import Py.

Lemma append_cons (x : ascii) (a b : string) :
  String x a +:+ b = String x (a +:+ b).
Proof. reflexivity. Qed.

Lemma append_nil_l (b : string) : "" +:+ b = b.
Proof. reflexivity. Qed.

Lemma append_assoc (a b c : string) : (a +:+ b) +:+ c = a +:+ (b +:+ c).
Proof.
  induction a as [|x a IH]; [done |].
  by rewrite !append_cons, IH.
Qed.

Lemma contains_here (needle hay : string) :
  String.prefix needle hay = true -> contains needle hay = true.
Proof. destruct hay; simpl; intros ->; done. Qed.

Lemma contains_skip (needle pre hay : string) :
  contains needle hay = true -> contains needle (pre +:+ hay) = true.
Proof.
  intros H. induction pre as [|c pre IH]; [done |].
  rewrite append_cons. simpl. rewrite IH. apply orb_true_r.
Qed.

Lemma prefix_append (a b : string) : String.prefix a (a +:+ b) = true.
Proof.
  induction a as [|c a IH]; [by destruct b |].
  rewrite append_cons. simpl.
  destruct (ascii_dec c c); [done | congruence].
Qed.

Lemma split_no_sep (sep : ascii) (s : string) :
  (forall c, In c (list_ascii_of_string s) -> c <> sep) ->
  split sep s = [s].
Proof.
  induction s as [|c s IH]; simpl; intros H; [done |].
  destruct (Ascii.eqb_spec c sep) as [->|_]; [by destruct (H sep); auto |].
  rewrite IH; [done | intros; apply H; auto].
Qed.

Lemma split_nonempty (sep : ascii) (s : string) : split sep s <> [].
Proof.
  destruct s as [|c s]; simpl; [done |].
  destruct (Ascii.eqb c sep); [done |]. by destruct (split sep s).
Qed.

Lemma split_app (sep : ascii) (a b : string) :
  split sep (a +:+ String sep b) = split sep a ++ split sep b.
Proof.
  induction a as [|c a IH].
  - rewrite append_nil_l. simpl. by rewrite Ascii.eqb_refl.
  - rewrite append_cons. simpl.
    destruct (Ascii.eqb c sep); [by rewrite IH |].
    rewrite IH. pose proof (split_nonempty sep a).
    by destruct (split sep a).
Qed.

Lemma no_sep_split (sep : ascii) (s : string) :
  Forall (fun w => forall c, In c (list_ascii_of_string w) -> c <> sep) (split sep s).
Proof.
  induction s as [|c s IH]; simpl.
  - apply Forall_singleton. by intros c [].
  - destruct (Ascii.eqb_spec c sep) as [->|Hne].
    + apply Forall_cons. split; [by intros c [] | done].
    + pose proof (split_nonempty sep s). destruct (split sep s) as [|w ws]; [done |].
      apply Forall_cons in IH as [Hw Hws]. apply Forall_cons. split; [| done].
      intros c' [<- | Hin]; [done | by apply Hw].
Qed.

Lemma split_join (sep : ascii) (l : list string) :
  l <> [] ->
  Forall (fun w => forall c, In c (list_ascii_of_string w) -> c <> sep) l ->
  split sep (join (String sep "") l) = l.
Proof.
  induction l as [|w l IH]; [done |]. intros _ [Hw Hl]%Forall_cons.
  destruct l as [|w' l]; simpl; [by apply split_no_sep |].
  change (String sep "" +:+ ?x) with (String sep x).
  rewrite split_app, split_no_sep by done. simpl. f_equal. by apply IH.
Qed.

End Strings.

(** ** The todo tracker *)

Section TodoTracker.
Import Py TodoListMiddleware.

(** C8.  Scenario A: from an empty tracker, [add_todo] of a task followed
    by [update_todo 0 "completed"] renders the header line followed by
    the line numbered 1, which carries the completed glyph, the task and
    the word "completed"; for "Review contract X" the line after the
    header starts with "1. " and contains both the glyph and the word.
    An empty tracker renders as the fixed text "No todos yet.". *)
Theorem format_todos_scenario_A :
  (forall task : string,
      format_todos (update_todo (add_todo init task "pending") 0 "completed")
      = "Current todos:" +:+ LF +:+ "1. [✓] " +:+ task +:+ " (completed)" +:+ LF)
  /\ (let rendered :=
        format_todos
          (update_todo (add_todo init "Review contract X" "pending") 0 "completed") in
      split (ascii_of_nat 10) rendered
      = ["Current todos:"; "1. [✓] Review contract X (completed)"; ""]
      /\ exists line1,
          split (ascii_of_nat 10) rendered !! 1%nat = Some line1
          /\ String.prefix "1. " line1 = true
          /\ contains "✓" line1 = true
          /\ contains "completed" line1 = true)
  /\ format_todos init = "No todos yet.".
Proof.
  split; [| split].
  - intros task. cbv [format_todos update_todo add_todo init todos].
    simpl. cbv [format_line status_icon]. simpl.
    by rewrite !append_assoc.
  - split; [reflexivity |].
    eexists. repeat split; reflexivity.
  - reflexivity.
Qed.

End TodoTracker.

(** ** Insertion-ordered dicts *)

Section Dicts.
Import Py.
Context {V : Type}.
Implicit Types (d : list (string * V)) (k : string) (v : V).

Lemma dict_get_Some d k v : dict_get k d = Some v -> (k, v) ∈ d.
Proof.
  induction d as [|[k' v'] d IH]; simpl; [done |].
  case_decide as E; [intros [= ->]; subst; left | intros; right; auto].
Qed.

Lemma dict_get_None d k : dict_get k d = None <-> k ∉ dict_keys d.
Proof.
  unfold dict_keys. induction d as [|[k' v'] d IH]; simpl.
  - split; [intros _; apply not_elem_of_nil | done].
  - rewrite not_elem_of_cons. case_decide as E; [subst |]; split; try done.
    + by intros [? _].
    + intros; split; [done | by apply IH].
    + intros [_ ?]. by apply IH.
Qed.

Lemma dict_get_elem d k v :
  NoDup (dict_keys d) -> (k, v) ∈ d -> dict_get k d = Some v.
Proof.
  unfold dict_keys. induction d as [|[k' v'] d IH]; simpl.
  - intros _ H. by apply elem_of_nil in H.
  - intros [Hk Hd]%NoDup_cons [[= -> ->] | Hin]%elem_of_cons.
    + by rewrite decide_True.
    + case_decide as E; [subst | by apply IH].
      destruct Hk. apply list_elem_of_fmap. by exists (k', v).
Qed.

Lemma elem_of_dict_del d k k' v :
  (k', v) ∈ dict_del k d <-> k' <> k /\ (k', v) ∈ d.
Proof. unfold dict_del. by rewrite list_elem_of_filter. Qed.

Lemma dict_del_keys d k : k ∉ dict_keys (dict_del k d).
Proof.
  unfold dict_keys. intros ([k' v] & -> & Hin)%list_elem_of_fmap.
  apply elem_of_dict_del in Hin as [Hne _]. done.
Qed.

Lemma dict_del_get d k : dict_get k (dict_del k d) = None.
Proof. apply dict_get_None, dict_del_keys. Qed.

Lemma dict_del_sublist d k : sublist (dict_del k d) d.
Proof. apply sublist_filter. Qed.

Lemma dict_del_keys_NoDup d k : NoDup (dict_keys d) -> NoDup (dict_keys (dict_del k d)).
Proof.
  intros H. eapply sublist_NoDup; [exact H |].
  unfold dict_keys. apply fmap_sublist, dict_del_sublist.
Qed.

Lemma dict_del_values_NoDup d k :
  NoDup (dict_values d) -> NoDup (dict_values (dict_del k d)).
Proof.
  intros H. eapply sublist_NoDup; [exact H |].
  unfold dict_values. apply fmap_sublist, dict_del_sublist.
Qed.

Lemma elem_of_dict_set d k v k' v' :
  (k', v') ∈ dict_set k v d -> (k' = k /\ v' = v) \/ (k', v') ∈ d.
Proof.
  induction d as [|[k0 v0] d IH]; simpl.
  - intros [= -> ->]%list_elem_of_singleton. by left.
  - case_decide as E; [subst k0 |].
    + intros [[= -> ->] | Hin]%elem_of_cons; [by left | right; by right].
    + intros [[= -> ->] | Hin]%elem_of_cons; [right; by left |].
      destruct (IH Hin) as [? | ?]; [by left | right; by right].
Qed.

Lemma dict_set_key d k v k' :
  k' ∈ dict_keys (dict_set k v d) -> k' = k \/ k' ∈ dict_keys d.
Proof.
  unfold dict_keys. intros ([k0 v0] & -> & Hin)%list_elem_of_fmap.
  apply elem_of_dict_set in Hin as [[-> _] | Hin]; [by left | right].
  apply list_elem_of_fmap. by exists (k0, v0).
Qed.

Lemma dict_set_value d k v v' :
  v' ∈ dict_values (dict_set k v d) -> v' = v \/ v' ∈ dict_values d.
Proof.
  unfold dict_values. intros ([k0 v0] & -> & Hin)%list_elem_of_fmap.
  apply elem_of_dict_set in Hin as [[_ ->] | Hin]; [by left | right].
  apply list_elem_of_fmap. by exists (k0, v0).
Qed.

Lemma dict_set_keys_NoDup d k v :
  NoDup (dict_keys d) -> NoDup (dict_keys (dict_set k v d)).
Proof.
  induction d as [|[k0 v0] d IH]; simpl.
  - intros _. apply NoDup_singleton.
  - intros [Hk Hd]%NoDup_cons. case_decide as E; [subst k0 |].
    + by apply NoDup_cons.
    + apply (NoDup_cons_2 k0); [| by apply IH].
      intros [-> | Hin]%dict_set_key; done.
Qed.

Lemma dict_set_values_NoDup d k v :
  v ∉ dict_values d -> NoDup (dict_values d) ->
  NoDup (dict_values (dict_set k v d)).
Proof.
  induction d as [|[k0 v0] d IH]; simpl.
  - intros _ _. apply NoDup_singleton.
  - intros [Hne Hv]%not_elem_of_cons [Hk Hd]%NoDup_cons.
    case_decide as E; [subst k0 |].
    + by apply NoDup_cons.
    + apply (NoDup_cons_2 v0); [| by apply IH].
      intros [-> | Hin]%dict_set_value; done.
Qed.

Lemma dict_get_set d k v : dict_get k (dict_set k v d) = Some v.
Proof.
  induction d as [|[k0 v0] d IH]; simpl.
  - by rewrite decide_True.
  - case_decide as E; simpl; [by rewrite decide_True | by rewrite decide_False].
Qed.

(** Under one binding per value, the key of a value is determined. *)
Lemma dict_value_key d k1 k2 v :
  NoDup (dict_values d) -> (k1, v) ∈ d -> (k2, v) ∈ d -> k1 = k2.
Proof.
  unfold dict_values. induction d as [|[k0 v0] d IH]; simpl.
  - intros _ H. by apply elem_of_nil in H.
  - intros [Hk Hd]%NoDup_cons H1 H2.
    apply elem_of_cons in H1 as [E1 | H1]; apply elem_of_cons in H2 as [E2 | H2].
    + congruence.
    + destruct Hk. apply list_elem_of_fmap. exists (k2, v).
      split; [by inversion E1 | done].
    + destruct Hk. apply list_elem_of_fmap. exists (k1, v).
      split; [by inversion E2 | done].
    + by apply IH.
Qed.

End Dicts.

(** ** The approval gate: invariants of a session *)

Section ApprovalInvariants.
Import Py Approval.
Implicit Types (s : HumanApprovalSystem) (r : ref) (q : ApprovalRequest).

Lemma wf_init : wf init.
Proof.
  split; simpl; try apply NoDup_nil_2;
    intros *; intros H; by apply elem_of_nil in H.
Qed.

Lemma pending_ref_valid s k r : wf s -> (k, r) ∈ pending_approvals s -> r < length (heap s).
Proof.
  intros Hwf Hin. destruct (wf_pending s Hwf k r Hin) as (q & Hq & _).
  by apply lookup_lt_Some in Hq.
Qed.

Lemma pending_value_valid s r :
  wf s -> r ∈ dict_values (pending_approvals s) -> r < length (heap s).
Proof.
  unfold dict_values. intros Hwf ([k r'] & -> & Hin)%list_elem_of_fmap.
  by eapply pending_ref_valid.
Qed.

Lemma wf_create s uuid now ty d a descr h :
  wf s -> wf (create_approval_request s uuid now ty d a descr h).2.
Proof.
  intros Hwf. pose proof Hwf as [Hk Hv Hp Hh Hr].
  assert (Hfresh : length (heap s) ∉ dict_values (pending_approvals s)).
  { intros Hin%pending_value_valid; [lia | done]. }
  split; simpl.
  - by apply dict_set_keys_NoDup.
  - by apply dict_set_values_NoDup.
  - intros k r [[-> ->] | Hin]%elem_of_dict_set.
    + eexists. split; [by apply list_lookup_middle | done].
    + destruct (Hp k r Hin) as (q & Hq & ?). exists q. split; [| done].
      by rewrite lookup_app_l; [| by apply lookup_lt_Some in Hq].
  - intros r Hin%Hh. rewrite length_app. simpl. lia.
  - intros r Hin [-> | Hin']%dict_set_value.
    + apply Hh in Hin. lia.
    + by apply (Hr r).
Qed.

Lemma wf_respond s i st md fb :
  wf s -> wf (respond_to_approval s i st md fb).2.
Proof.
  intros Hwf. pose proof Hwf as [Hk Hv Hp Hh Hr].
  unfold respond_to_approval.
  destruct (dict_get i (pending_approvals s)) as [r0|] eqn:Hget; [| done].
  apply dict_get_Some in Hget. split; simpl.
  - by apply dict_del_keys_NoDup.
  - by apply dict_del_values_NoDup.
  - intros k r [Hne Hin]%elem_of_dict_del.
    destruct (Hp k r Hin) as (q & Hq & ?). exists q. split; [| done].
    rewrite list_lookup_alter_ne; [done |].
    intros <-. apply Hne. by eapply dict_value_key.
  - intros r [Hin | ->%list_elem_of_singleton]%elem_of_app; rewrite length_alter.
    + by apply Hh.
    + by eapply pending_ref_valid.
  - intros r [Hin | ->%list_elem_of_singleton]%elem_of_app.
    + intros Hin'. apply (Hr r Hin).
      eapply elem_of_sublist; [exact Hin' |].
      unfold dict_values. apply fmap_sublist, dict_del_sublist.
    + unfold dict_values. intros ([k r'] & Heq & [Hne Hin]%elem_of_dict_del)%list_elem_of_fmap.
      simpl in Heq. subst r'. apply Hne. by eapply dict_value_key.
Qed.

Lemma wf_clear s : wf s -> wf (clear_pending_approvals s).
Proof.
  intros Hwf. pose proof Hwf as [Hk Hv Hp Hh Hr]. split; simpl.
  - apply NoDup_nil_2.
  - apply NoDup_nil_2.
  - intros k r H. by apply elem_of_nil in H.
  - intros r [Hin | Hin]%elem_of_app; [by apply Hh | by apply pending_value_valid].
  - intros r _. apply not_elem_of_nil.
Qed.

Lemma wf_step s c : wf s -> wf (step s c).
Proof.
  destruct c; simpl; [apply wf_create | apply wf_respond | apply wf_clear].
Qed.

Lemma wf_run s cs : wf s -> wf (run s cs).
Proof.
  unfold run. revert s. induction cs as [|c cs IH]; simpl; [done |].
  intros s Hwf. by apply IH, wf_step.
Qed.

Lemma reachable_wf s : reachable s -> wf s.
Proof. intros [cs ->]. apply wf_run, wf_init. Qed.

Lemma run_app s cs1 cs2 : run s (cs1 ++ cs2) = run (run s cs1) cs2.
Proof. unfold run. apply fold_left_app. Qed.

Lemma reachable_run s cs : reachable s -> reachable (run s cs).
Proof. intros [cs0 ->]. exists (cs0 ++ cs). by rewrite run_app. Qed.

End ApprovalInvariants.

(** ** The approval gate: resolving, clearing and querying *)

Section ApprovalGate.
Import Py Approval.
Implicit Types (s : HumanApprovalSystem) (r : ref) (q : ApprovalRequest).

(** What a successful [respond_to_approval] returns and leaves behind. *)
Lemma respond_pending s i r st md fb :
  get_approval_request s i = Some r ->
  respond_to_approval s i st md fb
  = (Some r,
     {| heap := alter (assign_response st md) r (heap s);
        pending_approvals := dict_del i (pending_approvals s);
        approval_history := approval_history s ++ [r] |}).
Proof. unfold get_approval_request, respond_to_approval. by intros ->. Qed.

Lemma respond_absent s i st md fb :
  get_approval_request s i = None -> respond_to_approval s i st md fb = (None, s).
Proof. unfold get_approval_request, respond_to_approval. by intros ->. Qed.

Lemma assign_response_status st md q : status (assign_response st md q) = st.
Proof.
  unfold assign_response.
  destruct (bool_decide (st = EDITED) && truthy md); [destruct md |]; done.
Qed.

Lemma assign_response_frame st md q :
  let q1 := assign_response st md q in
  id q1 = id q /\ type q1 = type q /\ timestamp q1 = timestamp q
  /\ agent_name q1 = agent_name q /\ description q1 = description q
  /\ highlights q1 = highlights q.
Proof.
  unfold assign_response.
  destruct (bool_decide (st = EDITED) && truthy md); [destruct md |]; done.
Qed.

(** An object of the history is out of reach of every later call. *)
Lemma history_step s c r :
  wf s -> r ∈ approval_history s ->
  deref (step s c) r = deref s r /\ r ∈ approval_history (step s c).
Proof.
  intros Hwf Hin. unfold deref. destruct c as [uuid now ty d a descr h | i st md fb |]; simpl.
  - split; [| done]. apply lookup_app_l. by apply (wf_history_valid s Hwf).
  - unfold respond_to_approval.
    destruct (dict_get i (pending_approvals s)) as [r0|] eqn:Hget; [| done].
    simpl. split; [| apply elem_of_app; by left].
    apply list_lookup_alter_ne. intros ->.
    apply (wf_history_resolved s Hwf r Hin).
    apply dict_get_Some in Hget. unfold dict_values.
    apply list_elem_of_fmap. by exists (i, r).
  - split; [done | apply elem_of_app; by left].
Qed.

Lemma history_run s cs r :
  wf s -> r ∈ approval_history s -> deref (run s cs) r = deref s r.
Proof.
  unfold run. revert s. induction cs as [|c cs IH]; simpl; [done |].
  intros s Hwf Hin. destruct (history_step s c r Hwf Hin) as [Heq Hin'].
  rewrite IH; [done | by apply wf_step | done].
Qed.

(** An identifier that is not pending stays so until it is submitted
    again. *)
Lemma absent_step s c i :
  ~ creates i c ->
  get_approval_request s i = None -> get_approval_request (step s c) i = None.
Proof.
  unfold get_approval_request. rewrite !dict_get_None.
  intros Hc Hnot. destruct c as [uuid now ty d a descr h | i' st md fb |]; simpl.
  - intros [-> | Hin]%dict_set_key; [by apply Hc | done].
  - unfold respond_to_approval.
    destruct (dict_get i' (pending_approvals s)); [simpl | done].
    intros Hin. apply Hnot. eapply elem_of_sublist; [exact Hin |].
    unfold dict_keys. apply fmap_sublist, dict_del_sublist.
  - apply not_elem_of_nil.
Qed.

Lemma absent_run s cs i :
  Forall (fun c => ~ creates i c) cs ->
  get_approval_request s i = None -> get_approval_request (run s cs) i = None.
Proof.
  unfold run. intros Hcs. revert s. induction Hcs as [|c cs Hc _ IH]; simpl; [done |].
  intros s Hnot. by apply IH, absent_step.
Qed.

(** C4.  In any state of a session, responding to an identifier that is
    pending returns its request object, which then carries the supplied
    status (and otherwise the fields it had, the payload apart), is gone
    from the pending dict and is the last entry of the history.
    Responding to the same identifier again returns [None] and changes
    nothing, also after any further calls that do not submit that
    identifier anew; and no later call of the system changes the fields
    of the resolved object. *)
Theorem respond_to_approval_exactly_once s i r st md fb :
  reachable s ->
  get_approval_request s i = Some r ->
  exists q s1,
    deref s r = Some q
    /\ respond_to_approval s i st md fb = (Some r, s1)
    /\ deref s1 r = Some (assign_response st md q)
    /\ status (assign_response st md q) = st
    /\ id (assign_response st md q) = i
    /\ get_approval_request s1 i = None
    /\ (r ∉ get_pending_approvals s1)
    /\ approval_history s1 = approval_history s ++ [r]
    /\ (forall st' md' fb', respond_to_approval s1 i st' md' fb' = (None, s1))
    /\ (forall cs, deref (run s1 cs) r = Some (assign_response st md q))
    /\ (forall cs st' md' fb',
           Forall (fun c => ~ creates i c) cs ->
           (respond_to_approval (run s1 cs) i st' md' fb').1 = None).
Proof.
  intros Hreach Hget. pose proof (reachable_wf s Hreach) as Hwf.
  pose proof (wf_respond s i st md fb Hwf) as Hwf1.
  rewrite (respond_pending s i r st md fb Hget) in Hwf1 |- *. simpl in Hwf1.
  destruct (wf_pending s Hwf i r (dict_get_Some _ _ _ Hget)) as (q & Hq & Hid & _).
  set (s1 := Build_HumanApprovalSystem _ _ _) in *.
  assert (Hnone : get_approval_request s1 i = None) by apply dict_del_get.
  assert (Hhist : r ∈ approval_history s1).
  { simpl. apply elem_of_app. right. by apply list_elem_of_singleton. }
  assert (Hderef : deref s1 r = Some (assign_response st md q)).
  { unfold deref, s1. simpl. rewrite list_lookup_alter_eq. by rewrite Hq. }
  exists q, s1. repeat split; try done.
  - apply assign_response_status.
  - by rewrite (proj1 (assign_response_frame st md q)).
  - by apply (wf_history_resolved s1 Hwf1).
  - intros. by apply respond_absent.
  - intros cs. by rewrite history_run.
  - intros cs st' md' fb' Hcs.
    by rewrite respond_absent; [| apply absent_run].
Qed.

(** C10.  Responding to an identifier that is not pending returns [None]
    and gives back the very state it was called in: heap, pending dict
    and history are those of before. *)
Theorem respond_to_approval_unknown_id s i st md fb :
  get_approval_request s i = None ->
  respond_to_approval s i st md fb = (None, s).
Proof. apply respond_absent. Qed.

End ApprovalGate.

(** ** The approval gate: payloads, clearing and the history *)

Section ApprovalGateMore.
Import Py Approval Examples.
Implicit Types (s : HumanApprovalSystem) (r : ref) (q : ApprovalRequest).

Lemma one_pending_reachable : reachable one_pending.
Proof. by exists [submit_report]. Qed.

(** One request pending, rejected, then answered a second time. *)
Lemma respond_to_approval_exactly_once_witness :
  reachable one_pending
  /\ get_approval_request one_pending "req-1" = Some 0
  /\ exists s1,
      respond_to_approval one_pending "req-1" REJECTED None None = (Some 0, s1)
      /\ respond_to_approval s1 "req-1" APPROVED None None = (None, s1).
Proof.
  split; [apply one_pending_reachable | split; [reflexivity |]].
  destruct (respond_to_approval_exactly_once one_pending "req-1" 0 REJECTED None None
              one_pending_reachable eq_refl)
    as (q & s1 & _ & Hres & _ & _ & _ & _ & _ & _ & Hagain & _).
  exists s1. split; [exact Hres | apply Hagain].
Defined.

(** An identifier that was never submitted. *)
Lemma respond_to_approval_unknown_id_witness :
  get_approval_request one_pending "req-2" = None
  /\ respond_to_approval one_pending "req-2" APPROVED None None = (None, one_pending).
Proof.
  split; [reflexivity |].
  apply (respond_to_approval_unknown_id one_pending "req-2" APPROVED None None).
  reflexivity.
Defined.

(** C5, as the code has it.  Responding to a pending identifier resolves
    the request whatever the disposition and whether or not a replacement
    payload comes with it.  With EDITED and a non-empty replacement the
    resolved request carries the replacement; with EDITED and no
    replacement it keeps its payload; with APPROVED and with REJECTED it
    keeps its payload whatever is supplied. *)
Theorem respond_to_approval_payload s i r q st md fb :
  get_approval_request s i = Some r ->
  deref s r = Some q ->
  exists q1,
    (respond_to_approval s i st md fb).1 = Some r
    /\ deref (respond_to_approval s i st md fb).2 r = Some q1
    /\ status q1 = st
    /\ (st = EDITED -> forall d, md = Some d -> d <> [] -> data q1 = d)
    /\ (st = EDITED -> md = None -> data q1 = data q)
    /\ (st = APPROVED -> data q1 = data q)
    /\ (st = REJECTED -> data q1 = data q).
Proof.
  intros Hget Hq. rewrite (respond_pending s i r st md fb Hget).
  exists (assign_response st md q). unfold deref in *. simpl.
  rewrite list_lookup_alter_eq, Hq. repeat split.
  - apply assign_response_status.
  - intros -> d -> Hd. unfold assign_response. by destruct d.
  - by intros -> ->.
  - by intros ->.
  - by intros ->.
Qed.

(** The pending request for "report.md", edited to name another file. *)
Lemma respond_to_approval_payload_witness :
  get_approval_request one_pending "req-1" = Some 0
  /\ (exists q, deref one_pending 0 = Some q)
  /\ exists q1,
      deref (respond_to_approval one_pending "req-1" EDITED
               (Some [("file_path", VStr "summary.md")]) None).2 0 = Some q1
      /\ data q1 = [("file_path", VStr "summary.md")].
Proof.
  split; [reflexivity | split; [by eexists |]].
  destruct (respond_to_approval_payload one_pending "req-1" 0 _ EDITED
              (Some [("file_path", VStr "summary.md")]) None eq_refl eq_refl)
    as (q1 & _ & Hq1 & _ & Hd & _).
  exists q1. split; [exact Hq1 | by apply Hd].
Defined.

(** C5 fails as stated: EDITED without a replacement payload is accepted,
    and the resolved request carries the original payload. *)
Lemma respond_to_approval_edited_without_payload :
  exists q1 s1,
    respond_to_approval one_pending "req-1" EDITED None None = (Some 0, s1)
    /\ deref s1 0 = Some q1
    /\ status q1 = EDITED
    /\ data q1 = [("file_path", VStr "report.md"); ("content", VStr "# R")].
Proof. do 2 eexists. repeat split. Qed.

(** C7.  In any state of a session, [clear_pending_approvals] leaves the
    pending dict empty and appends the pending requests, in their order,
    to the history; the request objects are not touched, so each of them
    sits in the history with the status PENDING it had. *)
Theorem clear_pending_approvals_keeps_status s :
  reachable s ->
  let s1 := clear_pending_approvals s in
  pending_approvals s1 = []
  /\ get_pending_approvals s1 = []
  /\ approval_history s1 = approval_history s ++ get_pending_approvals s
  /\ heap s1 = heap s
  /\ forall r, r ∈ get_pending_approvals s ->
       r ∈ approval_history s1
       /\ exists q, deref s r = Some q /\ deref s1 r = Some q /\ status q = PENDING.
Proof.
  intros Hwf%reachable_wf. simpl. do 4 (split; [done |]).
  intros r Hr. split; [apply elem_of_app; by right |].
  unfold get_pending_approvals, dict_values in Hr.
  apply list_elem_of_fmap in Hr as ([k r'] & -> & Hin).
  destruct (wf_pending s Hwf k r' Hin) as (q & Hq & _ & Hst).
  by exists q.
Qed.

(** One request pending when the pending dict is cleared. *)
Lemma clear_pending_approvals_keeps_status_witness :
  reachable one_pending
  /\ get_pending_approvals one_pending = [0]
  /\ approval_history (clear_pending_approvals one_pending) = [0]
  /\ exists q, deref (clear_pending_approvals one_pending) 0 = Some q
               /\ status q = PENDING.
Proof.
  split; [apply one_pending_reachable | split; [reflexivity |]].
  destruct (clear_pending_approvals_keeps_status one_pending one_pending_reachable)
    as (_ & _ & Hh & _ & Hall).
  split; [exact Hh |].
  destruct (Hall 0) as (_ & q & _ & Hq & Hst); [by apply list_elem_of_singleton |].
  by exists q.
Defined.

(** For a positive limit the slice is the tail of the history of length
    [min limit (length history)]. *)
Lemma get_approval_history_positive s (limit : Z) :
  (0 < limit)%Z ->
  get_approval_history s limit
  = drop (length (approval_history s) - Z.to_nat limit) (approval_history s)
  /\ length (get_approval_history s limit)
     = Nat.min (Z.to_nat limit) (length (approval_history s)).
Proof.
  intros Hpos. unfold get_approval_history, slice_from_neg.
  destruct (Z.ltb_spec (- limit) 0) as [_|]; [| lia].
  replace (Z.to_nat (Z.max 0 (Z.of_nat (length (approval_history s)) + - limit)))
    with (length (approval_history s) - Z.to_nat limit) by lia.
  split; [done |]. rewrite length_drop. lia.
Qed.

(** C9 at limit 0.  [approval_history[-0:]] is the whole list: in every
    state [get_approval_history 0] returns the full history, so with one
    resolved request it returns that request and not the empty list. *)
Theorem get_approval_history_limit_zero :
  (forall s, get_approval_history s 0 = approval_history s)
  /\ get_approval_history one_resolved 0 = [0]
  /\ length (get_approval_history one_resolved 0)
     <> Nat.min (Z.to_nat 0) (length (approval_history one_resolved)).
Proof.
  split; [| split; [reflexivity | by vm_compute]].
  intros s. unfold get_approval_history, slice_from_neg. simpl. apply drop_0.
Qed.

End ApprovalGateMore.

(** ** Path resolution and directory creation *)

Section FileSystem.
Import Py OS FilesystemMiddleware.
Implicit Types (t : gmap (list string) node) (cur q root : list string).
Implicit Types (segs l : list string).

Lemma prefix_slash_cons (c : ascii) (p : string) :
  String.prefix "/" (String c p) = Ascii.eqb c slash.
Proof.
  change (String.prefix "/" (String c p))
    with (if ascii_dec "/" c then String.prefix "" p else false).
  destruct (ascii_dec "/" c) as [<-|Hne]; [by destruct p |].
  symmetry. apply Ascii.eqb_neq. unfold slash. congruence.
Qed.

Lemma start_components fs p : start fs p = start_at fs (components p).
Proof.
  destruct p as [|c p]; [done |]. unfold start, start_at, components.
  rewrite prefix_slash_cons. cbn [split].
  pose proof (split_nonempty slash p).
  destruct (Ascii.eqb c slash); by destruct (split slash p).
Qed.

Lemma components_empty p : components p = [""] -> p = "".
Proof.
  destruct p as [|c p]; [done |]. unfold components. simpl.
  pose proof (split_nonempty slash p).
  destruct (Ascii.eqb c slash); destruct (split slash p); done.
Qed.

Lemma walk_app t cur l1 l2 :
  walk t cur (l1 ++ l2)
  = match walk t cur l1 with
    | inl e => inl e
    | inr q => walk t q l2
    end.
Proof.
  revert cur. induction l1 as [|seg l1 IH]; intros cur; simpl; [done |].
  destruct (t !! cur) as [[|c]|]; [| done | done].
  repeat case_decide; apply IH.
Qed.

(** Without "..", resolution only goes down. *)
Lemma walk_inside t root cur segs q :
  ".." ∉ segs -> inside root cur -> walk t cur segs = inr q -> inside root q.
Proof.
  revert cur. induction segs as [|seg segs IH]; intros cur Hdd Hin; simpl.
  - by intros [= <-].
  - apply not_elem_of_cons in Hdd as [Hne Hdd].
    destruct (t !! cur) as [[|c]|]; [| done | done].
    repeat case_decide; try done; apply IH; try done.
    by apply prefix_app_r.
Qed.

Lemma walk_mono t t' cur segs q :
  t ⊆ t' -> walk t cur segs = inr q -> walk t' cur segs = inr q.
Proof.
  intros Hsub. revert cur. induction segs as [|seg segs IH]; intros cur; simpl; [done |].
  destruct (t !! cur) as [[|c]|] eqn:Hcur; [| done | done].
  rewrite (lookup_weaken _ _ _ _ Hcur Hsub).
  repeat case_decide; apply IH.
Qed.

Lemma walk_names t cur segs q :
  walk t cur segs = inr q -> walk t cur (names segs) = inr q.
Proof.
  unfold names. revert cur. induction segs as [|seg segs IH]; intros cur; simpl; [done |].
  destruct (t !! cur) as [[|c]|] eqn:Hcur; [| done | done].
  destruct (decide (seg = "")) as [->|Hne].
  - rewrite decide_True by (by left). rewrite filter_cons_False by (by intros []).
    apply IH.
  - rewrite filter_cons_True by done. simpl. rewrite Hcur.
    repeat case_decide; apply IH.
Qed.

(** The last node a resolution passes through is a directory when
    the one it arrives at is. *)
Lemma walk_step_dir t cur seg segs q :
  walk t (cur ++ [seg]) segs = inr q -> t !! q = Some Dir ->
  t !! (cur ++ [seg]) = Some Dir.
Proof.
  destruct segs as [|seg' segs]; simpl; [by intros [= <-] |].
  by destruct (t !! (cur ++ [seg])) as [[|c]|].
Qed.

(** The tree [mkdirs] leaves depends neither on the empty components
    nor on the names used in its error reports. *)
Lemma mkdirs_names name name' t cur seen seen' segs :
  (mkdirs name t cur seen segs).1 = (mkdirs name' t cur seen' (names segs)).1.
Proof.
  unfold names. revert t cur seen seen'.
  induction segs as [|seg segs IH]; intros t cur seen seen'.
  - simpl. by destruct (t !! cur) as [[|c]|].
  - destruct (decide (seg = "")) as [Heq|Hne].
    + rewrite filter_cons_False by (by intros ?). cbn [mkdirs].
      rewrite decide_True by done. apply IH.
    + rewrite filter_cons_True by done. cbn [mkdirs].
      destruct (decide (seg = "")) as [? | _]; [done |].
      destruct (t !! cur) as [[|c]|]; [| done | done].
      repeat case_decide; try apply IH.
      destruct (t !! (cur ++ [seg])); apply IH.
Qed.

Lemma mkdirs_seen name t cur seen seen' segs :
  (mkdirs name t cur seen segs).1 = (mkdirs name t cur seen' segs).1.
Proof.
  by rewrite (mkdirs_names name name t cur seen [] segs),
             (mkdirs_names name name t cur seen' [] segs).
Qed.

(** [mkdirs] only adds nodes. *)
Lemma mkdirs_subseteq name t cur seen segs : t ⊆ (mkdirs name t cur seen segs).1.
Proof.
  revert t cur seen. induction segs as [|seg segs IH]; intros t cur seen.
  - simpl. by destruct (t !! cur) as [[|c]|].
  - cbn [mkdirs]. case_decide; [apply IH |].
    destruct (t !! cur) as [[|c]|]; [| done | done].
    repeat case_decide; try apply IH.
    destruct (t !! (cur ++ [seg])) eqn:Hq; [apply IH |].
    etrans; [| apply IH]. by apply insert_subseteq.
Qed.

(** Without "..", what [mkdirs] adds from a directory of the workspace
    lies inside the workspace. *)
Lemma mkdirs_frame name t root cur seen segs q :
  inside root cur -> ".." ∉ segs -> ~ inside root q ->
  (mkdirs name t cur seen segs).1 !! q = t !! q.
Proof.
  intros Hin Hdd Hout. revert t cur seen Hin.
  induction segs as [|seg segs IH]; intros t cur seen Hin.
  - simpl. by destruct (t !! cur) as [[|c]|].
  - apply not_elem_of_cons in Hdd as [Hne Hdd]. cbn [mkdirs].
    case_decide; [by apply IH |].
    destruct (t !! cur) as [[|c]|]; [| done | done].
    repeat case_decide; try done; try (by apply IH).
    assert (Hin' : inside root (cur ++ [seg])) by (by apply prefix_app_r).
    destruct (t !! (cur ++ [seg])); [by apply IH |].
    rewrite IH by done. apply lookup_insert_ne. intros Heq. by subst q.
Qed.

(** Along directories that exist, [mkdirs] creates nothing. *)
Lemma mkdirs_enter name t cur seen seen' l l2 q :
  walk t cur l = inr q -> t !! q = Some Dir -> "" ∉ l ->
  (mkdirs name t cur seen (l ++ l2)).1 = (mkdirs name t q seen' l2).1.
Proof.
  intros Hwalk Hq. revert cur seen Hwalk.
  induction l as [|seg l IH]; intros cur seen Hwalk Hne.
  - injection Hwalk as <-. apply mkdirs_seen.
  - apply not_elem_of_cons in Hne as [Hseg Hne].
    rewrite <- app_comm_cons. cbn [mkdirs walk] in *.
    destruct (decide (seg = "")) as [? | _]; [done |].
    destruct (t !! cur) as [[|c]|]; [| done | done].
    destruct (decide (seg = ".")) as [Hdot | Hdot].
    { rewrite decide_True in Hwalk by (by right). by apply IH. }
    rewrite decide_False in Hwalk by (by intros [? | ?]).
    case_decide; [by apply IH |].
    rewrite (walk_step_dir _ _ _ _ _ Hwalk Hq). by apply IH.
Qed.

End FileSystem.

(** ** The workspace *)

Section Workspace.
Import Py OS FilesystemMiddleware.
Implicit Types (self : FilesystemMiddleware.t) (fs : filesystem).
Implicit Types (root q : list string) (l : list string).

Lemma components_full_path self file_path :
  components (full_path self file_path)
  = components (base_path self) ++ components file_path.
Proof. apply split_app. Qed.

Lemma start_full_path self fs file_path :
  base_path self <> "" ->
  start fs (full_path self file_path) = start fs (base_path self).
Proof.
  unfold start, full_path. destruct (base_path self) as [|c b]; [done |].
  intros _. by rewrite append_cons, !prefix_slash_cons.
Qed.

Lemma resolve_full_path self fs root file_path :
  workspace_root self fs root ->
  resolve fs (full_path self file_path)
  = walk (tree fs) root (components file_path).
Proof.
  intros (Hne & Hres & _). unfold resolve in *.
  by rewrite start_full_path, components_full_path, walk_app, Hres.
Qed.

Lemma Forall_removelast {A} (P : A -> Prop) (xs : list A) :
  Forall P xs -> Forall P (removelast xs).
Proof.
  induction 1 as [|x xs Hx Hxs IH]; simpl; [done |].
  destruct xs; [done | by apply Forall_cons].
Qed.

Lemma elem_of_removelast {A} (x : A) (xs : list A) :
  x ∈ removelast xs -> x ∈ xs.
Proof.
  induction xs as [|y xs IH]; simpl; [done |].
  destruct xs as [|z xs]; [by intros ?%elem_of_nil |].
  intros [-> | Hin]%elem_of_cons; [by left | right; by apply IH].
Qed.

Lemma rstrip_empty_Forall (P : string -> Prop) l :
  Forall P l -> Forall P (rstrip_empty l).
Proof.
  induction 1 as [|s l Hs Hl IH]; simpl; [done |].
  destruct (rstrip_empty l) as [|s' l'].
  - case_decide; [done | by apply Forall_singleton].
  - by apply Forall_cons.
Qed.

Lemma names_rstrip_empty l : names (rstrip_empty l) = names l.
Proof.
  unfold names. induction l as [|s l IH]; [done |]. cbn [rstrip_empty].
  destruct (decide (s = "")) as [Heq|Hne].
  - rewrite (filter_cons_False _ s l) by (by intros ?). rewrite <- IH.
    destruct (rstrip_empty l) as [|s' l']; [done |].
    by rewrite filter_cons_False by (by intros ?).
  - rewrite (filter_cons_True _ s l) by done. rewrite <- IH.
    destruct (rstrip_empty l) as [|s' l']; by rewrite filter_cons_True.
Qed.

Lemma names_all_empty l :
  forallb (fun s => bool_decide (s = "")) l = true -> names l = [].
Proof.
  unfold names. induction l as [|s l IH]; simpl; [done |].
  intros [Hs Hl]%andb_true_iff. apply bool_decide_eq_true in Hs.
  rewrite filter_cons_False by (by intros ?). by apply IH.
Qed.

Lemma rstrip_empty_nonempty l :
  forallb (fun s => bool_decide (s = "")) l = false -> rstrip_empty l <> [].
Proof.
  induction l as [|s l IH]; [done |]. cbn [forallb rstrip_empty].
  intros [Hs | Hl]%andb_false_iff.
  - apply bool_decide_eq_false in Hs.
    destruct (rstrip_empty l); [by destruct (decide (s = "")) | done].
  - specialize (IH Hl). by destruct (rstrip_empty l).
Qed.

Lemma start_at_rstrip_empty fs l :
  forallb (fun s => bool_decide (s = "")) l = false ->
  start_at fs (rstrip_empty l) = start_at fs l.
Proof.
  destruct l as [|s l]; [done |]. cbn [forallb rstrip_empty].
  destruct (decide (s = "")) as [->|Hne].
  - rewrite bool_decide_eq_true_2 by done. simpl. intros Hl.
    pose proof (rstrip_empty_nonempty l Hl).
    destruct (rstrip_empty l), l; done.
  - intros _. destruct (decide (s = "")) as [? | _]; [done |].
    destruct (rstrip_empty l); by destruct s.
Qed.

Lemma start_at_app fs l1 l2 :
  l1 <> [] -> l1 <> [""] -> start_at fs (l1 ++ l2) = start_at fs l1.
Proof.
  destruct l1 as [|s [|s' l1]]; [done | | done].
  intros _ Hne. destruct s; [done |]. by destruct l2.
Qed.

(** The components of [dirname p], in terms of those of [p]. *)
Lemma components_dirname p :
  let head := removelast (components p) in
  components (dirname p)
  = if forallb (fun s => bool_decide (s = "")) head
    then head ++ [""] else rstrip_empty head.
Proof.
  intros head. unfold dirname. fold head.
  assert (Hhead : Forall (fun w => forall c, In c (list_ascii_of_string w) -> c <> slash) head).
  { apply Forall_removelast, no_sep_split. }
  destruct (forallb _ head) eqn:Hall; unfold components; apply split_join.
  - by destruct head.
  - apply Forall_app. split; [done |]. apply Forall_singleton. by intros c [].
  - by apply rstrip_empty_nonempty.
  - by apply rstrip_empty_Forall.
Qed.

(** Creating the parent directories of a file of the workspace whose
    name has no ".." touches nothing outside the workspace. *)
Lemma makedirs_frame self fs root file_path q :
  workspace_root self fs root ->
  ".." ∉ components file_path ->
  ~ inside root q ->
  tree (makedirs fs (dirname (full_path self file_path))).1 !! q = tree fs !! q.
Proof.
  intros (Hne & Hres & Hroot) Hdd Hout. unfold makedirs.
  case_decide; [done |].
  set (name := dirname (full_path self file_path)).
  destruct (mkdirs name (tree fs) (start fs name) [] (components name))
    as [t r] eqn:Hmk.
  simpl. replace t with (mkdirs name (tree fs) (start fs name) [] (components name)).1
    by (by rewrite Hmk).
  rewrite (mkdirs_names name name _ _ [] []).
  unfold name at 2 3. rewrite start_components, components_dirname.
  rewrite components_full_path.
  rewrite removelast_app by apply split_nonempty.
  set (B := components (base_path self)). set (R := removelast (components file_path)).
  destruct (forallb _ (B ++ R)) eqn:Hall.
  - pose proof (names_all_empty _ Hall) as Hnil. unfold names in *.
    rewrite filter_app, Hnil.
    rewrite filter_cons_False by (by intros ?). simpl.
    by destruct (tree fs !! start_at fs ((B ++ R) ++ [""])) as [[|c]|].
  - rewrite names_rstrip_empty, start_at_rstrip_empty by done.
    rewrite start_at_app; [| apply split_nonempty | by intros ?%components_empty].
    subst B. rewrite <- start_components.
    unfold names. rewrite filter_app.
    rewrite (mkdirs_enter name (tree fs) _ [] [] _ _ root);
      [| by apply walk_names | done |].
    + apply (mkdirs_frame _ _ root); [done | | done].
      intros [_ Hin]%list_elem_of_filter. by apply Hdd, elem_of_removelast.
    + by intros [? _]%list_elem_of_filter.
Qed.

Lemma makedirs_subseteq fs name :
  tree fs ⊆ tree (makedirs fs name).1 /\ cwd (makedirs fs name).1 = cwd fs.
Proof.
  unfold makedirs. case_decide; [done |].
  pose proof (mkdirs_subseteq name (tree fs) (start fs name) [] (components name)).
  by destruct (mkdirs _ _ _ _ _).
Qed.

(** The workspace stays where it is when nodes are added. *)
Lemma workspace_root_mono self fs fs1 root :
  tree fs ⊆ tree fs1 -> cwd fs1 = cwd fs ->
  workspace_root self fs root -> workspace_root self fs1 root.
Proof.
  intros Hsub Hcwd (Hne & Hres & Hroot). split; [done |]. split.
  - unfold resolve, start in *. rewrite Hcwd. by eapply walk_mono.
  - by eapply lookup_weaken.
Qed.

(** What [write_file] leaves: the tree after [makedirs], with the file
    put at the node its name resolves to when the write goes through. *)
Lemma write_file_cases self fs file_path content :
  let full := full_path self file_path in
  let fs1 := (makedirs fs (dirname full)).1 in
  (exists e, write_file self fs file_path content
             = ("Error writing file: " +:+ str e, fs1))
  \/ (exists q,
        resolve fs1 full = inr q
        /\ write_file self fs file_path content
           = ("File written successfully: " +:+ file_path,
              {| cwd := cwd fs1; tree := <[q := File content]> (tree fs1) |})).
Proof.
  intros full fs1. unfold write_file. fold full. subst fs1.
  destruct (makedirs fs (dirname full)) as [fs1 [p | e]]; simpl; [| left; by exists e].
  unfold write_text.
  destruct (resolve fs1 full) as [[] | q] eqn:Hres;
    [left; by exists (FileNotFoundError full)
    | left; by exists (NotADirectoryError full) |].
  destruct (tree fs1 !! q) as [[|c]|];
    [left; by exists (IsADirectoryError full) | |]; right; by exists q.
Qed.

(** C3, as the code has it.  For a workspace whose base path resolves to
    the directory [root], and a file name none of whose components is
    "..": [write_file] changes or creates no node outside [root], and a
    write that reports success has put the file at a node inside [root];
    [read_file] returns either the content of a file inside [root] or an
    error text.  (Names with ".." are resolved as the host resolves
    them.) *)
Theorem workspace_sandbox_without_parent_segments self fs root file_path :
  workspace_root self fs root ->
  ".." ∉ components file_path ->
  (forall content q,
      ~ inside root q ->
      tree (write_file self fs file_path content).2 !! q = tree fs !! q)
  /\ (forall content,
        (write_file self fs file_path content).1
        = "File written successfully: " +:+ file_path ->
        exists q, inside root q
                  /\ tree (write_file self fs file_path content).2 !! q
                     = Some (File content))
  /\ ((exists q, inside root q
                 /\ tree fs !! q = Some (File (read_file self fs file_path)))
      \/ exists e, read_file self fs file_path = "Error reading file: " +:+ str e).
Proof.
  intros Hroot Hdd.
  pose proof (makedirs_subseteq fs (dirname (full_path self file_path))) as [Hsub Hcwd].
  pose proof (workspace_root_mono self fs _ root Hsub Hcwd Hroot) as Hroot1.
  assert (Hins : forall q, resolve (makedirs fs (dirname (full_path self file_path))).1
                             (full_path self file_path) = inr q -> inside root q).
  { intros q. rewrite (resolve_full_path self _ root) by done.
    by apply walk_inside. }
  split; [| split].
  - intros content q Hout.
    destruct (write_file_cases self fs file_path content) as [[e ->] | (p & Hres & ->)];
      simpl.
    + by apply (makedirs_frame self fs root).
    + rewrite lookup_insert_ne; [by apply (makedirs_frame self fs root) |].
      intros ->. by apply Hout, Hins.
  - intros content.
    destruct (write_file_cases self fs file_path content) as [[e ->] | (p & Hres & ->)];
      simpl; [done |].
    intros _. exists p. split; [by apply Hins | apply lookup_insert_eq].
  - unfold read_file, read_text. rewrite (resolve_full_path self fs root) by done.
    set (full := full_path self file_path).
    destruct (walk (tree fs) root (components file_path)) as [[] | q] eqn:Hw;
      [right; by exists (FileNotFoundError full)
      | right; by exists (NotADirectoryError full) |].
    destruct (tree fs !! q) as [[|c]|] eqn:Hq;
      [right; by exists (IsADirectoryError full) |
      | right; by exists (FileNotFoundError full)].
    left. exists q. split; [| done]. by eapply walk_inside.
Qed.

(** C6, as the code has it.  When the name resolves to no node, or a
    directory on the way is missing, [read_file] returns as its ordinary
    string result the text "Error reading file: " followed by the text of
    the exception, which names the full path. *)
Theorem read_file_absent self fs file_path :
  (resolve fs (full_path self file_path) = inl ENOENT
   \/ exists q, resolve fs (full_path self file_path) = inr q
                /\ tree fs !! q = None) ->
  read_file self fs file_path
  = "Error reading file: [Errno 2] No such file or directory: "
      +:+ repr (full_path self file_path).
Proof.
  unfold read_file, read_text. by intros [-> | (q & -> & ->)].
Qed.

End Workspace.

(** ** The workspace on a concrete host *)

Section WorkspaceExamples.
Import Py OS FilesystemMiddleware Examples.

Lemma fresh_workspace_root : workspace_root ws fresh ws_root.
Proof. split; [done | split; by vm_compute]. Qed.

(** Writing "notes/a.md" leaves the file beside the workspace alone. *)
Lemma workspace_sandbox_without_parent_segments_witness :
  workspace_root ws fresh ws_root
  /\ (".." ∉ components "notes/a.md")
  /\ tree (write_file ws fresh "notes/a.md" "text").2 !! ["srv"; "data"; "secret.txt"]
     = tree fresh !! ["srv"; "data"; "secret.txt"].
Proof.
  assert (Hdd : ".." ∉ components "notes/a.md").
  { vm_compute. intros H. repeat (apply elem_of_cons in H as [H | H]; [done |]).
    by apply elem_of_nil in H. }
  split; [apply fresh_workspace_root | split; [exact Hdd |]].
  destruct (workspace_sandbox_without_parent_segments ws fresh ws_root "notes/a.md"
              fresh_workspace_root Hdd) as (Hframe & _ & _).
  apply Hframe. unfold inside. intros [k Hk]. vm_compute in Hk. done.
Defined.

(** C3 fails as stated: with ".." in the name, [write_file] creates a file
    next to the workspace directory, and [read_file] returns the content
    of a file that lies outside of it. *)
Lemma workspace_escape_with_parent_segment :
  workspace_root ws fresh ws_root
  /\ (write_file ws fresh "../escape.txt" "x").1
     = "File written successfully: ../escape.txt"
  /\ tree fresh !! ["srv"; "data"; "escape.txt"] = None
  /\ tree (write_file ws fresh "../escape.txt" "x").2 !! ["srv"; "data"; "escape.txt"]
     = Some (File "x")
  /\ ~ inside ws_root ["srv"; "data"; "escape.txt"]
  /\ tree fresh !! ["srv"; "data"; "secret.txt"] = Some (File "top secret")
  /\ ~ inside ws_root ["srv"; "data"; "secret.txt"]
  /\ read_file ws fresh "../secret.txt" = "top secret".
Proof.
  split; [apply fresh_workspace_root |].
  repeat split; try (by vm_compute);
    unfold inside; intros [k Hk]; vm_compute in Hk; done.
Qed.

(** Reading "report.md" from the empty workspace. *)
Lemma read_file_absent_witness :
  (resolve fresh (full_path ws "report.md") = inl ENOENT
   \/ exists q, resolve fresh (full_path ws "report.md") = inr q
                /\ tree fresh !! q = None)
  /\ read_file ws fresh "report.md"
     = "Error reading file: [Errno 2] No such file or directory: './data/agent_workspace/report.md'".
Proof.
  assert (H : resolve fresh (full_path ws "report.md") = inl ENOENT
              \/ exists q, resolve fresh (full_path ws "report.md") = inr q
                           /\ tree fresh !! q = None).
  { right. exists (ws_root ++ ["report.md"]). split; by vm_compute. }
  split; [exact H |].
  exact (read_file_absent ws fresh "report.md" H).
Defined.

(** C6 fails as stated: the result of reading an absent file is an
    ordinary string, the same one that reading a file holding that text
    returns. *)
Lemma read_file_error_text_is_a_content :
  let text :=
    "Error reading file: [Errno 2] No such file or directory: './data/agent_workspace/notes.md'" in
  let present := (write_file ws fresh "notes.md" text).2 in
  tree fresh !! (ws_root ++ ["notes.md"]) = None
  /\ tree present !! (ws_root ++ ["notes.md"]) = Some (File text)
  /\ read_file ws fresh "notes.md" = text
  /\ read_file ws present "notes.md" = text.
Proof. repeat split; by vm_compute. Qed.

End WorkspaceExamples.

(** ** Approval requests and the actions they describe *)

Section Gating.
Import Py Approval OS FilesystemMiddleware Process Examples.

(** C2 fails as stated: [write_file] writes at once, in a process where
    no approval request was ever submitted or resolved. *)
Lemma write_file_runs_without_approval :
  let '(answer1, w1) := exec ws fresh_world (WriteFile "report.md" "# R") in
  answer1 = Text "File written successfully: report.md"
  /\ approval_system w1 = Approval.init
  /\ tree (disk w1) !! (ws_root ++ ["report.md"]) = Some (File "# R")
  /\ (exec ws w1 (ReadFile "report.md")).1 = Text "# R".
Proof. repeat split; by vm_compute. Qed.

(** C2, as the code has it.  Submitting a file-operation request and
    responding to a request are bookkeeping of the approval system: in
    every state they leave the disk as it is, so that reading a file
    gives what it gave before, whatever the disposition.  [write_file]
    does not consult the approval system and leaves it as it is.  In
    scenario B (fresh workspace, request for "report.md" submitted and
    REJECTED, no write issued) the request is resolved as REJECTED and
    reading "report.md" gives the error text for a missing file. *)
Theorem approval_bookkeeping_leaves_disk (wsp : FilesystemMiddleware.t) (w : world) :
  (forall uuid now operation file_path content agent,
      disk (exec wsp w (CreateFileOperationApproval uuid now operation file_path
                          content agent)).2 = disk w)
  /\ (forall request_id st modified_data feedback,
        disk (exec wsp w (RespondToApproval request_id st modified_data
                            feedback)).2 = disk w)
  /\ (forall uuid now operation file_path content agent st modified_data
             feedback read_path,
        let w1 := (exec wsp w (CreateFileOperationApproval uuid now operation
                                 file_path content agent)).2 in
        let w2 := (exec wsp w1 (RespondToApproval uuid st modified_data
                                  feedback)).2 in
        (exec wsp w2 (ReadFile read_path)).1 = (exec wsp w (ReadFile read_path)).1)
  /\ (forall file_path content,
        exec wsp w (WriteFile file_path content)
        = (Text (write_file wsp (disk w) file_path content).1,
           {| approval_system := approval_system w;
              disk := (write_file wsp (disk w) file_path content).2 |}))
  /\ (let w1 := (exec ws fresh_world
                   (CreateFileOperationApproval "req-1" 0%Z WRITE_FILE "report.md"
                      (Some "# R") "agent")).2 in
      let '(answer2, w2) := exec ws w1 (RespondToApproval "req-1" REJECTED None None) in
      answer2 = Request (Some 0)
      /\ status <$> deref (approval_system w2) 0 = Some REJECTED
      /\ disk w2 = fresh
      /\ (exec ws w2 (ReadFile "report.md")).1
         = Text "Error reading file: [Errno 2] No such file or directory: './data/agent_workspace/report.md'").
Proof.
  assert (Hcreate : forall uuid now operation file_path content agent,
             disk (exec wsp w (CreateFileOperationApproval uuid now operation
                                 file_path content agent)).2 = disk w).
  { intros. cbn [exec].
    by destruct (create_file_operation_approval (approval_system w) uuid now
                   operation file_path content agent). }
  assert (Hrespond : forall w' request_id st modified_data feedback,
             disk (exec wsp w' (RespondToApproval request_id st modified_data
                                  feedback)).2 = disk w').
  { intros. cbn [exec].
    by destruct (respond_to_approval (approval_system w') request_id st
                   modified_data feedback). }
  split; [exact Hcreate | split; [apply Hrespond | split; [| split]]].
  - intros.
    change (Text (read_file wsp (disk w2) read_path)
            = Text (read_file wsp (disk w) read_path)).
    subst w1 w2. by rewrite Hrespond, Hcreate.
  - intros. cbn [exec]. by destruct (write_file wsp (disk w) file_path content).
  - repeat split; by vm_compute.
Qed.

End Gating.

(** ** Delegation to the subordinate agents *)

Section DelegationTools.
Import Py LegalAgents.
Variable ainvoke : subagent -> string -> list entry -> option string.

Lemma invoke_enters (c : tool_call) (log : list entry) :
  exists input,
    (invoke ainvoke c log).2 = log ++ [ {| who := target c; input_text := input |} ].
Proof. destruct c; simpl; by eexists. Qed.

Lemma entries_app (a : subagent) (log1 log2 : list entry) :
  entries a (log1 ++ log2) = entries a log1 + entries a log2.
Proof. unfold entries. by rewrite filter_app, length_app. Qed.

Lemma entries_invoke (a : subagent) (c : tool_call) (log : list entry) :
  entries a (invoke ainvoke c log).2
  = entries a log + (if decide (target c = a) then 1 else 0).
Proof.
  destruct (invoke_enters c log) as [input ->]. rewrite entries_app. f_equal.
  unfold entries. case_decide.
  - by rewrite filter_cons_True.
  - by rewrite filter_cons_False.
Qed.

Lemma session_entries (a : subagent) (cs : list tool_call) (log : list entry) :
  entries a (session ainvoke cs log).2 = entries a log + delegations a cs
  /\ length (session ainvoke cs log).1 = length cs.
Proof.
  revert log. induction cs as [|c cs IH]; intros log; simpl.
  - unfold delegations. simpl. lia.
  - pose proof (entries_invoke a c log) as Hc.
    destruct (invoke ainvoke c log) as [out log1]. simpl in Hc.
    specialize (IH log1). destruct (session ainvoke cs log1) as [outs log2].
    simpl in *. destruct IH as [-> ->]. rewrite Hc. split; [| done].
    unfold delegations. case_decide.
    + rewrite filter_cons_True by done. simpl. lia.
    + rewrite filter_cons_False by done. lia.
Qed.

(** C1, as the code has it.  The delegation tools keep no count: each
    call of a tool enters the loop of its subordinate once and returns
    what the subordinate answered (or the default text), so after any
    sequence of tool calls of a session each subordinate's loop has been
    entered exactly as often as it was delegated to, and every call has
    a result.  That Create Report is to be used once is said to the
    model in the tool description and the system prompt only. *)
Theorem delegation_enters_on_every_call (cs : list tool_call) :
  (forall a, entries a (session ainvoke cs []).2 = delegations a cs)
  /\ length (session ainvoke cs []).1 = length cs
  /\ (forall task log,
        delegate_to_analysis ainvoke task log
        = (default "Analysis completed" (ainvoke Analysis task log),
           log ++ [ {| who := Analysis; input_text := task |} ]))
  /\ (forall summary log,
        let input :=
          "Create a comprehensive legal risk analysis report based on:"
            +:+ LF +:+ LF +:+ summary in
        delegate_to_create_report ainvoke summary log
        = (default "Report created" (ainvoke CreateReport input log),
           log ++ [ {| who := CreateReport; input_text := input |} ])).
Proof.
  split; [| split; [| split]].
  - intros a. by rewrite (proj1 (session_entries a cs [])).
  - apply session_entries. exact Analysis.
  - done.
  - done.
Qed.

End DelegationTools.

Section DelegationExample.
Import Py LegalAgents.

(** C1 fails as stated: Create Report, documented with use=1, delegated
    twice in a session, runs twice, and the second call returns the
    answer of the second run. *)
Lemma create_report_delegated_twice_runs_twice :
  let ainvoke := fun (a : subagent) (input : string) (log : list entry) =>
                   Some ("run " +:+ str_nat (length log + 1)) in
  let '(outs, log) :=
    session ainvoke
      [DelegateToCreateReport "findings"; DelegateToCreateReport "findings"] [] in
  documented_use CreateReport = Some 1
  /\ entries CreateReport log = 2
  /\ outs = ["run 1"; "run 2"].
Proof. repeat split. Qed.

End DelegationExample.

(** ** The approval gate: submitting, and what a call leaves alone *)

Section ApprovalFrames.
Import Py Approval Submissions Examples.
Implicit Types (s : HumanApprovalSystem) (r : ref) (q : ApprovalRequest).

Lemma dict_get_set_ne {V} (d : list (string * V)) k j v :
  j <> k -> dict_get j (dict_set k v d) = dict_get j d.
Proof.
  intros Hne. induction d as [|[k0 v0] d IH]; simpl.
  - by rewrite decide_False.
  - destruct (decide (k = k0)) as [->|Hk]; simpl.
    + by rewrite !decide_False.
    + by rewrite IH.
Qed.

Lemma dict_get_del_ne {V} (d : list (string * V)) i j :
  j <> i -> dict_get j (dict_del i d) = dict_get j d.
Proof.
  intros Hne. unfold dict_del. induction d as [|[k0 v0] d IH]; [done |].
  destruct (decide (k0 = i)) as [->|Hk].
  - rewrite filter_cons_False by (by intros ?). simpl. by rewrite decide_False.
  - rewrite filter_cons_True by done. simpl. by rewrite IH.
Qed.

Lemma dict_set_fresh {V} (d : list (string * V)) k v :
  k ∉ dict_keys d -> dict_set k v d = d ++ [(k, v)].
Proof.
  unfold dict_keys. induction d as [|[k0 v0] d IH]; simpl; [done |].
  intros [Hne Hin]%not_elem_of_cons. rewrite decide_False by done.
  by rewrite IH.
Qed.

(** X1.  Submitting under an identifier that is not pending files a new
    request object: it is PENDING, carries the arguments, is what
    [get_approval_request] finds under the identifier and comes last in
    [get_pending_approvals]; the history, the other identifiers and the
    objects that existed are as before. *)
Theorem create_approval_request_files_pending s uuid now ty d a descr h :
  get_approval_request s uuid = None ->
  exists r s1,
    create_approval_request s uuid now ty d a descr h = (r, s1)
    /\ get_approval_request s1 uuid = Some r
    /\ deref s1 r = Some (new_request uuid now ty d a descr h)
    /\ get_pending_approvals s1 = get_pending_approvals s ++ [r]
    /\ approval_history s1 = approval_history s
    /\ (forall j, j <> uuid -> get_approval_request s1 j = get_approval_request s j)
    /\ (forall r', r' < length (heap s) -> deref s1 r' = deref s r').
Proof.
  intros Hnone. eexists _, _. split; [reflexivity |].
  unfold get_approval_request, get_pending_approvals, deref in *. simpl.
  apply dict_get_None in Hnone. repeat split.
  - apply dict_get_set.
  - by apply list_lookup_middle.
  - rewrite dict_set_fresh by done. unfold dict_values. by rewrite fmap_app.
  - intros j Hj. by apply dict_get_set_ne.
  - intros r' Hr'. by apply lookup_app_l.
Qed.

(** A first submission to the fresh system. *)
Lemma create_approval_request_files_pending_witness :
  get_approval_request Approval.init "req-1" = None
  /\ exists r s1,
      create_approval_request Approval.init "req-1" 0%Z TODO [] "agent" "d" None = (r, s1)
      /\ get_pending_approvals s1 = [r].
Proof.
  split; [reflexivity |].
  destruct (create_approval_request_files_pending Approval.init "req-1" 0%Z TODO []
              "agent" "d" None eq_refl)
    as (r & s1 & Hc & _ & _ & Hp & _).
  exists r, s1. split; [exact Hc | exact Hp].
Defined.

(** X2.  In any state of a session, responding to one identifier leaves
    every other pending request as it is: still found under its
    identifier, the same object with the same fields, still PENDING. *)
Theorem respond_to_approval_leaves_others s i j rj st md fb :
  reachable s ->
  j <> i ->
  get_approval_request s j = Some rj ->
  let s1 := (respond_to_approval s i st md fb).2 in
  get_approval_request s1 j = Some rj
  /\ deref s1 rj = deref s rj
  /\ exists q, deref s1 rj = Some q /\ status q = PENDING /\ id q = j.
Proof.
  intros Hwf%reachable_wf Hne Hj. unfold get_approval_request in *.
  pose proof (dict_get_Some _ _ _ Hj) as Hin.
  destruct (wf_pending s Hwf j rj Hin) as (q & Hq & Hid & Hst).
  unfold respond_to_approval, deref.
  destruct (dict_get i (pending_approvals s)) as [r|] eqn:Hi; simpl.
  - assert (Hr : r <> rj).
    { intros ->. apply Hne. apply dict_get_Some in Hi.
      by eapply dict_value_key; [apply (wf_refs s Hwf) | |]. }
    rewrite dict_get_del_ne by done.
    rewrite list_lookup_alter_ne by done. split; [done | split; [done |]].
    by exists q.
  - split; [done | split; [done |]]. by exists q.
Qed.

Lemma two_pending_reachable :
  reachable (Approval.run Approval.init
               [submit_report; Create "req-2" 1%Z TODO [] "agent" "d" None]).
Proof. by eexists. Qed.

(** Two requests pending, the first one rejected. *)
Lemma respond_to_approval_leaves_others_witness :
  let s := Approval.run Approval.init
             [submit_report; Create "req-2" 1%Z TODO [] "agent" "d" None] in
  reachable s
  /\ "req-2" <> "req-1"
  /\ get_approval_request s "req-2" = Some 1
  /\ get_approval_request (respond_to_approval s "req-1" REJECTED None None).2 "req-2"
     = Some 1.
Proof.
  split; [apply two_pending_reachable | split; [done | split; [reflexivity |]]].
  apply (respond_to_approval_leaves_others _ "req-1" "req-2" 1 REJECTED None None
           two_pending_reachable); [done | reflexivity].
Defined.

(** X3.  In any state of a session, every request [get_pending_approvals]
    lists is PENDING and is the one found under its own [id]; the list has
    no request twice, and no request of the history is pending. *)
Theorem session_invariant s :
  reachable s ->
  NoDup (get_pending_approvals s)
  /\ (forall r, r ∈ get_pending_approvals s ->
        exists q, deref s r = Some q /\ status q = PENDING
                  /\ get_approval_request s (id q) = Some r)
  /\ (forall r, r ∈ approval_history s ->
        (r ∉ get_pending_approvals s) /\ is_Some (deref s r)).
Proof.
  intros Hwf%reachable_wf. pose proof Hwf as [Hk Hv Hp Hh Hr].
  unfold get_pending_approvals, get_approval_request, deref.
  split; [done | split].
  - unfold dict_values. intros r ([k r'] & -> & Hin)%list_elem_of_fmap.
    destruct (Hp k r' Hin) as (q & Hq & <- & Hst). exists q.
    split; [done | split; [done |]]. by apply dict_get_elem.
  - intros r Hin. split; [by apply Hr |]. apply lookup_lt_is_Some. by apply Hh.
Qed.

(** After one submission. *)
Lemma session_invariant_witness :
  reachable one_pending
  /\ exists q, deref one_pending 0 = Some q /\ status q = PENDING.
Proof.
  assert (H : reachable one_pending) by (by exists [submit_report]).
  split; [exact H |].
  destruct (session_invariant one_pending H) as (_ & Hall & _).
  destruct (Hall 0) as (q & Hq & Hst & _); [by apply list_elem_of_singleton |].
  by exists q.
Defined.

Lemma history_prefix_run s cs :
  approval_history s `prefix_of` approval_history (Approval.run s cs)
  /\ length (heap s) <= length (heap (Approval.run s cs)).
Proof.
  unfold Approval.run. revert s. induction cs as [|c cs IH]; intros s; simpl; [done |].
  destruct (IH (step s c)) as [Hp Hl].
  assert (Hstep : approval_history s `prefix_of` approval_history (step s c)
                  /\ length (heap s) <= length (heap (step s c))).
  { destruct c as [uuid now ty d a descr h | i st md fb |]; simpl.
    - split; [done |]. rewrite length_app. lia.
    - unfold respond_to_approval.
      destruct (dict_get i (pending_approvals s)); simpl; [| done].
      split; [by apply prefix_app_r | by rewrite length_alter].
    - split; [by apply prefix_app_r | done]. }
  destruct Hstep as [Hp0 Hl0]. split; [by etrans | lia].
Qed.

(** X4.  The history is only ever appended to, and request objects are
    only ever added: whatever calls follow, every entry of the history
    keeps its position, and the history and the count of objects of
    before are a prefix and a lower bound of those after. *)
Theorem approval_history_append_only s cs :
  approval_history s `prefix_of` approval_history (Approval.run s cs)
  /\ (forall n r, approval_history s !! n = Some r ->
        approval_history (Approval.run s cs) !! n = Some r)
  /\ length (heap s) <= length (heap (Approval.run s cs)).
Proof.
  destruct (history_prefix_run s cs) as [Hp Hl]. split; [done | split; [| done]].
  intros n r Hn. destruct Hp as [k ->]. by apply lookup_app_l_Some.
Qed.

End ApprovalFrames.

(** ** The approval gate: no request is lost *)

Section ApprovalConservation.
Import Py Approval Submissions Examples.
Implicit Types (s : HumanApprovalSystem) (r : ref).

Lemma dict_del_absent {V} (d : list (string * V)) i :
  i ∉ dict_keys d -> dict_del i d = d.
Proof.
  unfold dict_keys, dict_del. induction d as [|[k0 v0] d IH]; simpl; [done |].
  intros [Hne Hin]%not_elem_of_cons.
  rewrite filter_cons_True by (simpl; congruence). by rewrite IH.
Qed.

Lemma dict_values_del {V} (d : list (string * V)) i v :
  NoDup (dict_keys d) -> dict_get i d = Some v ->
  dict_values d ≡ₚ v :: dict_values (dict_del i d).
Proof.
  unfold dict_keys, dict_values, dict_del.
  induction d as [|[k0 v0] d IH]; simpl; [done |].
  intros [Hk Hd]%NoDup_cons. destruct (decide (i = k0)) as [->|Hne].
  - intros [= ->]. rewrite filter_cons_False by (by intros ?).
    fold (dict_del k0 d). by rewrite dict_del_absent.
  - intros Hget. rewrite filter_cons_True by done. simpl.
    rewrite (IH Hd Hget). apply Permutation_swap.
Qed.

Lemma run_cons s c cs : Approval.run s (c :: cs) = Approval.run (step s c) cs.
Proof. done. Qed.

(** The invariant behind: the pending identifiers are not submitted
    again, and pending list and history together hold every object
    once. *)
Lemma conservation_run s cs :
  wf s ->
  NoDup (submitted cs) ->
  (forall k, k ∈ dict_keys (pending_approvals s) -> k ∉ submitted cs) ->
  get_pending_approvals s ++ approval_history s ≡ₚ seq 0 (length (heap s)) ->
  let s1 := Approval.run s cs in
  get_pending_approvals s1 ++ approval_history s1 ≡ₚ seq 0 (length (heap s1)).
Proof.
  unfold get_pending_approvals. revert s.
  induction cs as [|c cs IH]; intros s Hwf Hnd Hkeys Hperm; [done |].
  rewrite run_cons. pose proof (wf_step s c Hwf) as Hwf1.
  destruct c as [uuid now ty d a descr h | i st md fb |]; simpl in Hnd, Hkeys.
  - apply NoDup_cons in Hnd as [Hfresh Hnd].
    assert (Hnew : uuid ∉ dict_keys (pending_approvals s)).
    { intros Hin. apply (Hkeys _ Hin). by left. }
    apply IH; [done | done | |]; simpl.
    + intros k [-> | Hin]%dict_set_key; [done |].
      intros Hk. apply (Hkeys _ Hin). by right.
    + rewrite dict_set_fresh by done. unfold dict_values.
      rewrite fmap_app, length_app. simpl.
      rewrite Nat.add_1_r, seq_S. simpl. rewrite <- Hperm.
      unfold dict_values. rewrite <- !app_assoc. f_equiv. apply Permutation_app_comm.
  - apply IH; [done | done | |]; unfold step, respond_to_approval;
      destruct (dict_get i (pending_approvals s)) as [r|] eqn:Hget; simpl; try done.
    + intros k Hin. apply Hkeys. eapply elem_of_sublist; [exact Hin |].
      unfold dict_keys. apply fmap_sublist, dict_del_sublist.
    + rewrite length_alter, <- Hperm.
      rewrite (dict_values_del _ i r (wf_keys s Hwf) Hget).
      rewrite app_assoc. rewrite (Permutation_app_comm _ [r]). done.
  - apply IH; [done | done | |]; simpl.
    + intros k Hin. by apply elem_of_nil in Hin.
    + rewrite <- Hperm. apply Permutation_app_comm.
Qed.

(** X5.  In a session whose submissions all use different identifiers, no
    request is lost or doubled: after any calls, every request object
    created so far is either pending or in the history, and there exactly
    once. *)
Theorem no_request_lost cs :
  NoDup (submitted cs) ->
  let s := Approval.run Approval.init cs in
  get_pending_approvals s ++ approval_history s ≡ₚ seq 0 (length (heap s)).
Proof.
  intros Hnd. apply conservation_run; [apply wf_init | done | | done].
  intros k Hin. by apply elem_of_nil in Hin.
Qed.

(** A request submitted and approved. *)
Lemma no_request_lost_witness :
  NoDup (submitted [submit_report; Respond "req-1" APPROVED None None])
  /\ get_pending_approvals one_resolved ++ approval_history one_resolved ≡ₚ [0].
Proof.
  assert (H : NoDup (submitted [submit_report; Respond "req-1" APPROVED None None])).
  { apply NoDup_singleton. }
  split; [exact H |].
  exact (no_request_lost [submit_report; Respond "req-1" APPROVED None None] H).
Defined.

End ApprovalConservation.

(** ** The approval gate: limits of the history query *)

Section HistoryLimits.
Import Py Approval Examples.
Implicit Types (s : HumanApprovalSystem).

(** X6.  With a positive limit the query returns the most recent
    entries of the history, oldest of them first: the history is some
    older entries followed by the answer, the answer has [limit] entries
    or the whole history when that is shorter, and a limit that is not
    below the length of the history returns all of it. *)
Theorem get_approval_history_most_recent s (limit : Z) :
  (0 < limit)%Z ->
  (exists older, approval_history s = older ++ get_approval_history s limit)
  /\ length (get_approval_history s limit)
     = Nat.min (Z.to_nat limit) (length (approval_history s))
  /\ ((Z.of_nat (length (approval_history s)) <= limit)%Z ->
      get_approval_history s limit = approval_history s).
Proof.
  intros Hpos. destruct (get_approval_history_positive s limit Hpos) as [Heq Hlen].
  split; [| split; [done |]].
  - exists (take (length (approval_history s) - Z.to_nat limit) (approval_history s)).
    by rewrite Heq, take_drop.
  - intros Hall. rewrite Heq.
    replace (length (approval_history s) - Z.to_nat limit) with 0 by lia.
    apply drop_0.
Qed.

(** The last entry of a history of one, asked for with the default limit. *)
Lemma get_approval_history_most_recent_witness :
  (0 < default_limit)%Z
  /\ get_approval_history one_resolved default_limit = [0].
Proof.
  split; [done |].
  destruct (get_approval_history_most_recent one_resolved default_limit)
    as (_ & _ & Hall); [done |].
  rewrite Hall; [reflexivity | by vm_compute].
Defined.



End HistoryLimits.

(** ** The todo tracker: updates and rendering *)

Section TodoUpdates.
Import Py TodoListMiddleware.

(** X8.  [update_todo] never changes the number of todos nor any task
    text.  With an index from 0 up to the last one it sets the status of
    that todo and of no other; with any other index, negative ones
    included, it changes nothing. *)
Theorem update_todo_effect (self : TodoListMiddleware.t) (index : Z) (st : string) :
  length (todos (update_todo self index st)) = length (todos self)
  /\ task <$> todos (update_todo self index st) = task <$> todos self
  /\ ((0 <= index < Z.of_nat (length (todos self)))%Z ->
      (status <$> todos (update_todo self index st) !! Z.to_nat index) = Some st
      /\ forall j, j <> Z.to_nat index ->
           todos (update_todo self index st) !! j = todos self !! j)
  /\ (~ (0 <= index < Z.of_nat (length (todos self)))%Z ->
      update_todo self index st = self).
Proof.
  unfold update_todo.
  destruct (Z.leb_spec 0 index) as [Hlo|Hlo];
    destruct (Z.ltb_spec index (Z.of_nat (length (todos self)))) as [Hhi|Hhi]; simpl;
    try (repeat split; (done || lia)).
  split; [apply length_alter | split; [| split]].
  - apply list_eq. intros j. rewrite !list_lookup_fmap.
    destruct (decide (j = Z.to_nat index)) as [->|Hj].
    + rewrite list_lookup_alter_eq. by destruct (todos self !! Z.to_nat index).
    + by rewrite list_lookup_alter_ne.
  - intros _. split.
    + rewrite list_lookup_alter_eq.
      destruct (lookup_lt_is_Some_2 (todos self) (Z.to_nat index)) as [x ->]; [lia | done].
    + intros j Hj. by rewrite list_lookup_alter_ne.
  - intros Hout. lia.
Qed.

Lemma enumerate_snoc {A} (l : list A) (x : A) :
  enumerate (l ++ [x]) = enumerate l ++ [(length l, x)].
Proof.
  unfold enumerate. rewrite imap_app. simpl. by rewrite Nat.add_0_r.
Qed.

(** X9.  Adding a todo appends exactly one line to the rendering: the
    rendering of the tracker before (the bare header when it was empty)
    followed by the line numbered with the new count, and nothing of the
    earlier lines changes. *)
Theorem format_todos_add_todo (self : TodoListMiddleware.t) (t st : string) :
  format_todos (add_todo self t st)
  = (match todos self with
     | [] => "Current todos:" +:+ LF
     | _ => format_todos self
     end)
    +:+ str_nat (length (todos self) + 1) +:+ ". ["
    +:+ (if decide (st = "completed") then "✓" else "○") +:+ "] "
    +:+ t +:+ " (" +:+ st +:+ ")" +:+ LF.
Proof.
  unfold format_todos, add_todo. simpl.
  destruct (todos self ++ [ {| task := t; status := st |} ]) as [|x l] eqn:Happ.
  { by destruct (todos self). }
  rewrite <- Happ. rewrite enumerate_snoc, fold_left_app. cbn [fold_left].
  cbv [format_line status_icon task status]. by destruct (todos self).
Qed.

End TodoUpdates.

(** ** The workspace: what a write leaves, and setting the workspace up *)

Section WorkspaceWrites.
Import Py OS FilesystemMiddleware Host Examples.
Implicit Types (self : FilesystemMiddleware.t) (fs : filesystem).
Implicit Types (t : gmap (list string) node) (cur q : list string).

(** A file put where there was no directory is on the way of no
    resolution that went through. *)
Lemma walk_insert_file t cur segs q p content :
  t !! q <> Some Dir ->
  walk t cur segs = inr p ->
  walk (<[q := File content]> t) cur segs = inr p.
Proof.
  intros Hq. revert cur. induction segs as [|seg segs IH]; intros cur; simpl; [done |].
  destruct (t !! cur) as [[|c]|] eqn:Hcur; [| done | done].
  rewrite lookup_insert_ne by (intros ->; congruence). rewrite Hcur.
  repeat case_decide; apply IH.
Qed.

(** A write that reports success went through [makedirs] and [open]. *)
Lemma write_file_success self fs file_path content :
  (write_file self fs file_path content).1
  = "File written successfully: " +:+ file_path ->
  let full := full_path self file_path in
  let fs1 := (makedirs fs (dirname full)).1 in
  exists q,
    resolve fs1 full = inr q
    /\ tree fs1 !! q <> Some Dir
    /\ (write_file self fs file_path content).2
       = {| cwd := cwd fs1; tree := <[q := File content]> (tree fs1) |}.
Proof.
  intros Hmsg full fs1. revert Hmsg. unfold write_file. fold full. subst fs1.
  destruct (makedirs fs (dirname full)) as [fs1 [p | e]]; cbn [fst snd]; [| done].
  unfold write_text.
  destruct (resolve fs1 full) as [[] | q] eqn:Hres; [done | done |].
  destruct (tree fs1 !! q) as [[|c]|] eqn:Hq; cbn [fst snd]; [done | |];
    intros _; exists q; by rewrite Hq.
Qed.



(** X11.  [write_file] removes nothing: whatever the name and whether it
    succeeds or not, every directory that existed is still there, and
    there is one node such that every other file that existed has its
    content of before; that node holds the new content when the write
    reports success. *)
Theorem write_file_keeps_other_nodes self fs file_path content :
  let fs2 := (write_file self fs file_path content).2 in
  (forall p, tree fs !! p = Some Dir -> tree fs2 !! p = Some Dir)
  /\ exists q,
      (forall p n, p <> q -> tree fs !! p = Some n -> tree fs2 !! p = Some n)
      /\ ((write_file self fs file_path content).1
          = "File written successfully: " +:+ file_path ->
          tree fs2 !! q = Some (File content)).
Proof.
  pose proof (makedirs_subseteq fs (dirname (full_path self file_path))) as [Hsub _].
  destruct (write_file_cases self fs file_path content) as [[e He] | (q & Hres & He)].
  - rewrite He. cbn [fst snd]. split.
    + intros p Hp. by eapply lookup_weaken.
    + exists []. split; [intros p n _ Hp; by eapply lookup_weaken |].
      intros Hmsg. exfalso. revert Hmsg. unfold str.
      by destruct e.
  - assert (Hmsg : (write_file self fs file_path content).1
                   = "File written successfully: " +:+ file_path) by (by rewrite He).
    destruct (write_file_success self fs file_path content Hmsg) as (q' & Hres' & Hq & ->).
    assert (q' = q) as -> by congruence. simpl. split.
    + intros p Hp. rewrite lookup_insert_ne; [by eapply lookup_weaken |].
      intros <-. apply Hq. by eapply lookup_weaken.
    + exists q. split; [| intros _; apply lookup_insert_eq].
      intros p n Hne Hp. rewrite lookup_insert_ne by done. by eapply lookup_weaken.
Qed.

(** Along directories that exist, [mkdirs] succeeds and changes nothing. *)
Lemma mkdirs_existing name t cur seen segs q :
  walk t cur segs = inr q -> t !! q = Some Dir ->
  mkdirs name t cur seen segs = (t, Ok q).
Proof.
  intros Hwalk Hq. revert cur seen Hwalk.
  induction segs as [|seg segs IH]; intros cur seen Hwalk.
  - injection Hwalk as <-. simpl. by rewrite Hq.
  - cbn [mkdirs walk] in *.
    destruct (t !! cur) as [[|c]|] eqn:Hcur; [| done | done].
    destruct (decide (seg = "")) as [Hempty | Hempty].
    { rewrite decide_True in Hwalk by (by left). by apply IH. }
    destruct (decide (seg = ".")) as [Hdot | Hdot].
    { rewrite decide_True in Hwalk by (by right). by apply IH. }
    rewrite decide_False in Hwalk by (by intros [? | ?]).
    case_decide; [by apply IH |].
    rewrite (walk_step_dir _ _ _ _ _ Hwalk Hq). by apply IH.
Qed.

(** X12.  Setting up a workspace whose directory exists already changes
    nothing on the host and succeeds. *)
Theorem init_existing_workspace self fs root :
  workspace_root self fs root ->
  FilesystemMiddleware.init fs (base_path self) = (fs, Ok self).
Proof.
  intros (Hne & Hres & Hroot). unfold FilesystemMiddleware.init, makedirs.
  rewrite decide_False by done.
  rewrite (mkdirs_existing _ _ _ _ _ root Hres Hroot).
  by destruct fs, self.
Qed.

(** A file is entered by no [mkdirs]. *)
Lemma mkdirs_file_raises name t cur seen segs c q :
  t !! cur = Some (File c) -> (mkdirs name t cur seen segs).2 <> Ok q.
Proof.
  intros Hcur. revert seen. induction segs as [|seg segs IH]; intros seen.
  - simpl. by rewrite Hcur.
  - cbn [mkdirs]. case_decide; [apply IH |]. by rewrite Hcur.
Qed.

Lemma tree_ok_insert t cur seg :
  tree_ok t -> t !! cur = Some Dir -> t !! (cur ++ [seg]) = None ->
  tree_ok (<[cur ++ [seg] := Dir]> t).
Proof.
  intros Hok Hcur Hnew. unfold tree_ok. apply map_Forall_insert; [done |]. split.
  - unfold parent. rewrite removelast_last.
    rewrite lookup_insert_ne; [done |]. intros Heq. congruence.
  - intros p n Hp. simpl. rewrite lookup_insert_ne; [by apply (Hok p n) |].
    intros Heq. pose proof (Hok p n Hp) as Hpar. simpl in Hpar. congruence.
Qed.

(** A [mkdirs] that succeeds ends in a directory that its name resolves
    to in the tree it leaves. *)
Lemma mkdirs_ok name t cur seen segs t1 q :
  tree_ok t -> t !! cur = Some Dir ->
  mkdirs name t cur seen segs = (t1, Ok q) ->
  walk t1 cur segs = inr q /\ t1 !! q = Some Dir /\ tree_ok t1.
Proof.
  revert t cur seen. induction segs as [|seg segs IH]; intros t cur seen Hok Hcur.
  - simpl. rewrite Hcur. by intros [= <- <-].
  - cbn [mkdirs walk]. intros Hmk.
    assert (Hsub : t ⊆ t1).
    { pose proof (mkdirs_subseteq name t cur seen (seg :: segs)) as H.
      cbn [mkdirs] in H. by rewrite Hmk in H. }
    rewrite (lookup_weaken _ _ _ _ Hcur Hsub).
    destruct (decide (seg = "")) as [Hempty | Hempty].
    { rewrite decide_True by (by left). by eapply IH. }
    rewrite Hcur in Hmk.
    destruct (decide (seg = ".")) as [Hdot | Hdot].
    { rewrite decide_True by (by right). by eapply IH. }
    rewrite decide_False by (by intros [? | ?]).
    case_decide.
    { eapply IH; [done | | done]. by apply (Hok cur Dir). }
    destruct (t !! (cur ++ [seg])) as [[|c]|] eqn:Hq.
    + by eapply IH.
    + exfalso. eapply (mkdirs_file_raises name t (cur ++ [seg])); [done |].
      by rewrite Hmk.
    + eapply IH; [| | done]; [by apply tree_ok_insert | apply lookup_insert_eq].
Qed.

(** X13.  On a well-formed host, a workspace that was set up without
    error has a directory: its base path resolves to an existing
    directory of the host it leaves, in which everything that existed is
    still there. *)
Theorem init_creates_workspace fs base fs1 self :
  tree_ok (tree fs) ->
  tree fs !! start fs base = Some Dir ->
  FilesystemMiddleware.init fs base = (fs1, Ok self) ->
  base_path self = base
  /\ tree fs ⊆ tree fs1
  /\ tree_ok (tree fs1)
  /\ exists root, workspace_root self fs1 root.
Proof.
  intros Hok Hstart. unfold FilesystemMiddleware.init.
  pose proof (makedirs_subseteq fs base) as [Hsub Hcwd]. revert Hsub Hcwd.
  unfold makedirs. case_decide as Hbase; [done |].
  destruct (mkdirs base (tree fs) (start fs base) [] (components base))
    as [t [q | e]] eqn:Hmk; [| done].
  cbn [fst]. intros Hsub Hcwd [= <- <-]. simpl in *.
  destruct (mkdirs_ok _ _ _ _ _ _ _ Hok Hstart Hmk) as (Hwalk & Hq & Hok1).
  split; [done | split; [done | split; [done |]]].
  exists q. split; [done |]. split; [| done].
  unfold resolve. simpl. by unfold start in *.
Qed.

(** The host of the examples and the default base path. *)
Lemma init_creates_workspace_witness :
  tree_ok (tree host)
  /\ tree host !! start host default_base_path = Some Dir
  /\ exists fs1 self,
      FilesystemMiddleware.init host default_base_path = (fs1, Ok self)
      /\ exists root, workspace_root self fs1 root.
Proof.
  assert (Hok : tree_ok (tree host)).
  { unfold tree_ok. apply (bool_decide_unpack _). by vm_compute. }
  assert (Hstart : tree host !! start host default_base_path = Some Dir)
    by (by vm_compute).
  split; [exact Hok | split; [exact Hstart |]].
  eexists _, _. split; [by vm_compute |].
  eapply (init_creates_workspace host default_base_path); [exact Hok | exact Hstart |].
  by vm_compute.
Defined.

(** The workspace of the examples, set up a second time. *)
Lemma init_existing_workspace_witness :
  workspace_root ws fresh ws_root
  /\ FilesystemMiddleware.init fresh (base_path ws) = (fresh, Ok ws).
Proof.
  assert (H : workspace_root ws fresh ws_root).
  { split; [done | split; by vm_compute]. }
  split; [exact H |].
  exact (init_existing_workspace ws fresh ws_root H).
Defined.

End WorkspaceWrites.

(** ** Fetching the content of a URL *)

Section UrlContent.
Import Py WebTools.

Lemma truncation_mark_length : length truncation_mark = 24.
Proof. reflexivity. Qed.

(** X14.  When the loader returns documents, the answer of the tool is
    their contents joined by an empty line, cut after 10000 characters:
    it is never longer than 10024 characters, its first 10000 characters
    are those of the content, a content of at most 10000 characters is
    returned as it is, and a longer one is cut at 10000 and followed by
    the truncation mark. *)
Theorem URLContentTool_truncates (load : list N -> loaded) (url : list N)
    (docs : list (list N)) :
  load url = Documents docs ->
  docs <> [] ->
  let content := join_text (lit (LF +:+ LF)) docs in
  let out := URLContentTool_arun load url in
  (Z.of_nat (length out) <= 10024)%Z
  /\ take max_length out = take max_length content
  /\ (length content <= max_length -> out = content)
  /\ (max_length < length content -> out = take max_length content ++ truncation_mark).
Proof.
  intros Hload Hdocs content out. subst out. unfold URLContentTool_arun.
  rewrite Hload. destruct docs as [|d docs]; [done |]. fold content.
  unfold max_length in *. case_decide as Hlen.
  - split; [| split; [| split]].
    + rewrite length_app, length_take, truncation_mark_length. lia.
    + rewrite take_app_le by (rewrite length_take; lia).
      by rewrite take_take, Nat.min_id.
    + lia.
    + done.
  - split; [lia | split; [done | split; [done | lia]]].
Qed.

(** A page of three characters. *)
Lemma URLContentTool_truncates_witness :
  let load := fun _ : list N => Documents [lit "abc"] in
  load (lit "u") = Documents [lit "abc"]
  /\ [lit "abc"] <> []
  /\ URLContentTool_arun load (lit "u") = lit "abc".
Proof.
  intros load. split; [done | split; [done |]].
  destruct (URLContentTool_truncates load (lit "u") [lit "abc"] eq_refl)
    as (_ & _ & Hshort & _); [done |].
  apply Hshort. unfold max_length. simpl. lia.
Defined.

End UrlContent.

(** ** Reading pages of a document *)

Section PageTexts.
Import Py DocumentTools.

Lemma insert_page_perm (p : Page) (l : list Page) : insert_page p l ≡ₚ p :: l.
Proof.
  induction l as [|p0 l IH]; simpl; [done |].
  destruct (page_num p <=? page_num p0)%Z; [done |].
  by rewrite IH, Permutation_swap.
Qed.

Lemma sorted_by_page_num_perm (l : list Page) : sorted_by_page_num l ≡ₚ l.
Proof.
  unfold sorted_by_page_num. induction l as [|p l IH]; simpl; [done |].
  by rewrite insert_page_perm, IH.
Qed.

Lemma insert_page_sorted (p : Page) (l : list Page) :
  StronglySorted (fun a b => (page_num a <= page_num b)%Z) l ->
  StronglySorted (fun a b => (page_num a <= page_num b)%Z) (insert_page p l).
Proof.
  induction 1 as [|p0 l Hl IH Hall]; simpl.
  - apply SSorted_cons; [constructor | done].
  - destruct (Z.leb_spec (page_num p) (page_num p0)) as [Hle|Hgt].
    + apply SSorted_cons; [by apply SSorted_cons |].
      apply Forall_cons. split; [done |].
      eapply Forall_impl; [exact Hall |]. simpl. intros; lia.
    + apply SSorted_cons; [done |].
      rewrite insert_page_perm. apply Forall_cons. split; [lia | done].
Qed.

Lemma sorted_by_page_num_sorted (l : list Page) :
  StronglySorted (fun a b => (page_num a <= page_num b)%Z) (sorted_by_page_num l).
Proof.
  unfold sorted_by_page_num. induction l as [|p l IH]; simpl; [constructor |].
  by apply insert_page_sorted.
Qed.


End PageTexts.

(** ** Details of documents *)

Section DocumentDetails.
Import Py DocumentTools GetDocuments.


End DocumentDetails.

(** ** Starting the analysis *)

Section StartAnalysis.
Import Py DocumentTools Coordinator.

Lemma contains_middle (x a b : string) : contains x (a +:+ x +:+ b) = true.
Proof. apply contains_skip, contains_here, prefix_append. Qed.

Lemma append_nil_r (a : string) : a +:+ "" = a.
Proof. induction a as [|c a IH]; [done |]. by rewrite append_cons, IH. Qed.

Lemma contains_join (x sep : string) (l : list string) :
  x ∈ l -> exists a b, join sep l = a +:+ x +:+ b.
Proof.
  induction l as [|w l IH]; [by intros ?%elem_of_nil |].
  intros [-> | Hin]%elem_of_cons.
  - destruct l as [|w' l]; simpl.
    + exists "", "". by rewrite append_nil_r.
    + by exists "", (sep +:+ join sep (w' :: l)).
  - destruct (IH Hin) as (a & b & Heq). destruct l as [|w' l]; [by apply elem_of_nil in Hin |].
    change (join sep (w :: w' :: l)) with (w +:+ sep +:+ join sep (w' :: l)).
    rewrite Heq. exists (w +:+ sep +:+ a), b.
    by rewrite !append_assoc.
Qed.

(** X17.  With no document in the database, [analyze_company_documents]
    returns the error dict and the coordinator is not run.  With
    documents, the coordinator is run exactly once, on a request that
    shows the summary line of every document. *)
Theorem analyze_company_documents_runs_once (result : Type)
    (ainvoke : string -> list string -> result) (db : database) (log : list string) :
  (documents db = [] ->
   analyze_company_documents result ainvoke db log
   = (Failure result "error"
        "No documents found in database. Please upload documents first.", log))
  /\ (documents db <> [] ->
      exists message,
        analyze_company_documents result ainvoke db log
        = (Ran result (ainvoke message log), log ++ [message])
        /\ forall doc, doc ∈ documents db ->
             contains (summary_line doc) message = true).
Proof.
  unfold analyze_company_documents. split.
  - by intros ->.
  - intros Hne. exists (initial_message (documents db)).
    split; [by destruct (documents db) |].
    intros doc Hin. unfold initial_message.
    destruct (contains_join (summary_line doc) LF (summary_line <$> documents db))
      as (a & b & ->).
    { apply list_elem_of_fmap. by exists doc. }
    rewrite !append_assoc, <- (append_assoc request_head a).
    apply contains_middle.
Qed.

End StartAnalysis.

(** ** Requests that were cleared *)

Section ClearedRequests.
Import Py Approval Examples.
Implicit Types (s : HumanApprovalSystem) (r : ref).

(** X18.  A request that was pending when the pending dict was cleared
    can no longer be resolved: right after the clearing every
    [respond_to_approval] returns [None] and changes nothing, and
    whatever calls follow, the request stays in the history with the
    status PENDING. *)
Theorem cleared_requests_stay_pending s :
  reachable s ->
  let s1 := clear_pending_approvals s in
  (forall i st md fb, respond_to_approval s1 i st md fb = (None, s1))
  /\ (forall r cs,
        r ∈ get_pending_approvals s ->
        r ∈ approval_history (Approval.run s1 cs)
        /\ status <$> deref (Approval.run s1 cs) r = Some PENDING).
Proof.
  intros Hreach. pose proof (reachable_wf s Hreach) as Hwf.
  pose proof (wf_clear s Hwf) as Hwf1. simpl. split.
  - intros. by apply respond_absent.
  - intros r cs Hr.
    assert (Hin : r ∈ approval_history (clear_pending_approvals s)).
    { simpl. apply elem_of_app. by right. }
    split.
    + destruct (history_prefix_run (clear_pending_approvals s) cs) as [[k ->] _].
      apply elem_of_app. by left.
    + rewrite (history_run _ cs r Hwf1 Hin).
      unfold get_pending_approvals, dict_values in Hr.
      apply list_elem_of_fmap in Hr as ([k r'] & -> & Hk).
      destruct (wf_pending s Hwf k r' Hk) as (q & Hq & _ & Hst).
      unfold deref. simpl. by rewrite Hq, <- Hst.
Qed.

(** One request pending when the dict is cleared, then approved. *)
Lemma cleared_requests_stay_pending_witness :
  reachable one_pending
  /\ status <$> deref (Approval.run (clear_pending_approvals one_pending)
                         [Respond "req-1" APPROVED None None]) 0
     = Some PENDING.
Proof.
  assert (H : reachable one_pending) by (by exists [submit_report]).
  split; [exact H |].
  destruct (cleared_requests_stay_pending one_pending H) as [_ Hall].
  apply (Hall 0 [Respond "req-1" APPROVED None None]).
  by apply list_elem_of_singleton.
Defined.

End ClearedRequests.

(** ** Writing the same file again *)

Section Rewrites.
Import Py OS FilesystemMiddleware Host Examples.
Implicit Types (self : FilesystemMiddleware.t) (fs : filesystem).

(** The steps of a write that goes through. *)
Lemma write_file_steps self fs file_path content fs1 d q :
  let full := full_path self file_path in
  makedirs fs (dirname full) = (fs1, Ok d) ->
  resolve fs1 full = inr q ->
  tree fs1 !! q <> Some Dir ->
  write_file self fs file_path content
  = ("File written successfully: " +:+ file_path,
     {| cwd := cwd fs1; tree := <[q := File content]> (tree fs1) |}).
Proof.
  intros full Hmk Hres Hq. unfold write_file, write_text. fold full.
  rewrite Hmk, Hres. by destruct (tree fs1 !! q) as [[|c]|].
Qed.

Lemma write_file_success_steps self fs file_path content :
  (write_file self fs file_path content).1
  = "File written successfully: " +:+ file_path ->
  let full := full_path self file_path in
  exists fs1 d q,
    makedirs fs (dirname full) = (fs1, Ok d)
    /\ resolve fs1 full = inr q
    /\ tree fs1 !! q <> Some Dir.
Proof.
  intros Hmsg full. revert Hmsg. unfold write_file. fold full.
  destruct (makedirs fs (dirname full)) as [fs1 [d | e]]; cbn [fst snd]; [| done].
  unfold write_text.
  destruct (resolve fs1 full) as [[] | q] eqn:Hres; [done | done |].
  destruct (tree fs1 !! q) as [[|c]|] eqn:Hq; cbn [fst snd]; [done | |];
    intros _; exists fs1, d, q; by rewrite Hq.
Qed.

(** X19.  On a well-formed host, after a write that went through, a
    second write to the same name goes through as well and leaves the
    host exactly as if only the second one had been made. *)
Theorem write_file_again self fs file_path content1 content2 :
  tree_ok (tree fs) ->
  tree fs !! [] = Some Dir ->
  tree fs !! cwd fs = Some Dir ->
  (write_file self fs file_path content1).1
  = "File written successfully: " +:+ file_path ->
  write_file self (write_file self fs file_path content1).2 file_path content2
  = write_file self fs file_path content2
  /\ (write_file self fs file_path content2).1
     = "File written successfully: " +:+ file_path.
Proof.
  intros Hok Hroot Hcwd Hmsg.
  destruct (write_file_success_steps self fs file_path content1 Hmsg)
    as (fs1 & d & q & Hmk & Hres & Hq).
  set (full := full_path self file_path) in *.
  rewrite (write_file_steps self fs file_path content1 fs1 d q Hmk Hres Hq).
  rewrite (write_file_steps self fs file_path content2 fs1 d q Hmk Hres Hq).
  split; [| done]. cbn [snd].
  set (fs2 := {| cwd := cwd fs1; tree := <[q := File content1]> (tree fs1) |}).
  (* the directories are there *)
  assert (Hmk1 := Hmk). unfold makedirs in Hmk1.
  case_decide as Hname; [done |].
  destruct (mkdirs (dirname full) (tree fs) (start fs (dirname full)) []
              (components (dirname full))) as [t1 r] eqn:Hmkd.
  injection Hmk1 as <- ->.
  assert (Hstart : tree fs !! start fs (dirname full) = Some Dir).
  { unfold start. by destruct (String.prefix "/" (dirname full)). }
  destruct (mkdirs_ok _ _ _ _ _ _ _ Hok Hstart Hmkd) as (Hwalk & Hd & _).
  simpl in *.
  assert (Hmk2 : makedirs fs2 (dirname full) = (fs2, Ok d)).
  { unfold makedirs. rewrite decide_False by done.
    change (start fs2 (dirname full)) with (start fs (dirname full)).
    rewrite (mkdirs_existing _ (tree fs2) _ _ _ d); [done | |].
    - by apply walk_insert_file.
    - simpl. rewrite lookup_insert_ne; [done |]. intros <-. by apply Hq. }
  assert (Hres2 : resolve fs2 full = inr q).
  { unfold resolve in *. simpl in *.
    change (start fs2 full) with (start {| cwd := cwd fs; tree := t1 |} full).
    by apply walk_insert_file. }
  rewrite (write_file_steps self fs2 file_path content2 fs2 d q Hmk2 Hres2).
  - simpl. by rewrite insert_insert_eq.
  - simpl. by rewrite lookup_insert_eq.
Qed.

(** "report.md" written twice into the empty workspace. *)
Lemma write_file_again_witness :
  tree_ok (tree fresh)
  /\ tree fresh !! [] = Some Dir
  /\ tree fresh !! cwd fresh = Some Dir
  /\ (write_file ws fresh "report.md" "# R").1 = "File written successfully: report.md"
  /\ read_file ws (write_file ws (write_file ws fresh "report.md" "# R").2
                     "report.md" "# R2").2 "report.md" = "# R2".
Proof.
  assert (Hok : tree_ok (tree fresh)).
  { unfold tree_ok. apply (bool_decide_unpack _). by vm_compute. }
  assert (Hroot : tree fresh !! [] = Some Dir) by (by vm_compute).
  assert (Hcwd : tree fresh !! cwd fresh = Some Dir) by (by vm_compute).
  assert (Hmsg : (write_file ws fresh "report.md" "# R").1
                 = "File written successfully: " +:+ "report.md") by (by vm_compute).
  split; [exact Hok | split; [exact Hroot | split; [exact Hcwd | split; [exact Hmsg |]]]].
  destruct (write_file_again ws fresh "report.md" "# R" "# R2" Hok Hroot Hcwd Hmsg)
    as [-> _].
  by vm_compute.
Defined.

End Rewrites.
